(** * iaviewer: a shallow embedding of [cmd/iaviewer/main.go]

    The command-line viewer of the IAVL tree is embedded function by
    function.  Go byte slices are [list byte], Go strings are [string]
    (a Go string is a byte sequence, and so is a Rocq [string]), Go's [int]
    and [int64] are integers in [Z] wrapped to 64 bits, and the effects of
    the program (standard output, standard error, the storage handles it
    asks for, a panic, [os.Exit]) are threaded through a small state and
    outcome monad. *)

From Stdlib Require Import ZArith NArith List String Ascii Bool Lia.
From Stdlib Require Import Strings.Byte DecimalString HexadecimalString.
Import ListNotations.

Local Open Scope string_scope.
Local Open Scope Z_scope.

(** ** Characters and constants *)

Definition nl : string := String "010"%char EmptyString.
Definition dquote : string := String (ascii_of_N 34) EmptyString.

(** DefaultCacheSize (main.go:24). *)
Definition DefaultCacheSize : Z := 10000.

(** ** Machine integers

    [int64] and, on the 64-bit platforms the tool is built for, [int]. *)
Module Int64.

Definition min_int : Z := - 2 ^ 63.
Definition max_int : Z := 2 ^ 63 - 1.

(** Two's-complement wrap-around of an arithmetic result. *)
Definition wrap (z : Z) : Z := (z + 2 ^ 63) mod 2 ^ 64 - 2 ^ 63.

Definition add (x y : Z) : Z := wrap (x + y).
Definition mul (x y : Z) : Z := wrap (x * y).

(** Go's [/] and [%] truncate toward zero; a zero divisor is a run-time
    panic, which is [None] here. *)
Definition div (x y : Z) : option Z :=
  if y =? 0 then None else Some (wrap (Z.quot x y)).
Definition rem (x y : Z) : option Z :=
  if y =? 0 then None else Some (Z.rem x y).

Definition in_range (z : Z) : Prop := min_int <= z <= max_int.

End Int64.

(** [len] of a slice or of a string, as an [int]. *)
Definition len {A} (l : list A) : Z := Z.of_nat (List.length l).
Definition slen (s : string) : Z := Z.of_nat (String.length s).

(** ** [encoding/hex] and [strings.ToUpper] *)

Definition hextable : string := "0123456789abcdef".
Definition udigits : string := "0123456789ABCDEF".

(** [tbl[i]] for an index known to lie inside the table. *)
Definition table_at (tbl : string) (i : N) : ascii :=
  match String.get (N.to_nat i) tbl with
  | Some c => c
  | None => zero
  end.

(** hex.EncodeToString: for each byte [v], [hextable[v>>4]] then
    [hextable[v&0x0f]]. *)
Fixpoint EncodeToString (src : list byte) : string :=
  match src with
  | [] => EmptyString
  | v :: rest =>
      String (table_at hextable (N.shiftr (Byte.to_N v) 4))
        (String (table_at hextable (N.land (Byte.to_N v) 15))
           (EncodeToString rest))
  end.

Definition is_ascii_char (c : ascii) : bool := (N_of_ascii c <? 128)%N.

Definition upper_char (c : ascii) : ascii :=
  let n := N_of_ascii c in
  if ((97 <=? n) && (n <=? 122))%N then ascii_of_N (n - 32) else c.

Fixpoint map_string (f : ascii -> ascii) (s : string) : string :=
  match s with
  | EmptyString => EmptyString
  | String c r => String (f c) (map_string f r)
  end.

Fixpoint forall_string (p : ascii -> bool) (s : string) : bool :=
  match s with
  | EmptyString => true
  | String c r => p c && forall_string p r
  end.

(** strings.ToUpper on a string of ASCII bytes: ['a'..'z'] move down by 32
    and every other byte stays.  (Go takes another route, through the
    Unicode tables, for a string with a byte above 0x7F; the program only
    calls ToUpper on the output of hex.EncodeToString, which is ASCII, see
    [EncodeToString_ascii].) *)
Definition ToUpper (s : string) : string := map_string upper_char s.

(** Upper-case hexadecimal of a byte string, two digits per byte, most
    significant nibble first: what [%X] prints for a byte array, and the
    reference meaning of "uppercase hex of the segment". *)
Fixpoint upper_hex (src : list byte) : string :=
  match src with
  | [] => EmptyString
  | v :: rest =>
      String (table_at udigits (Byte.to_N v / 16))
        (String (table_at udigits (Byte.to_N v mod 16)) (upper_hex rest))
  end.

(** ** [crypto/sha256]

    sha256.Sum256 as FIPS 180-4 defines it and as Go's generic block function
    computes it, on 32-bit words kept in [N]. *)
Module SHA256.
Local Open Scope N_scope.

Definition u32 (x : N) : N := x mod 2 ^ 32.
Definition add32 (x y : N) : N := u32 (x + y).
Definition not32 (x : N) : N := N.lxor x (2 ^ 32 - 1).
(** bits.RotateLeft32(x, -k) *)
Definition rotr (x k : N) : N :=
  N.lor (N.shiftr x k) (u32 (N.shiftl x (32 - k))).

Definition _K : list N :=
  [ 1116352408; 1899447441; 3049323471; 3921009573; 961987163; 1508970993;
    2453635748; 2870763221; 3624381080; 310598401; 607225278; 1426881987;
    1925078388; 2162078206; 2614888103; 3248222580; 3835390401; 4022224774;
    264347078; 604807628; 770255983; 1249150122; 1555081692; 1996064986;
    2554220882; 2821834349; 2952996808; 3210313671; 3336571891; 3584528711;
    113926993; 338241895; 666307205; 773529912; 1294757372; 1396182291;
    1695183700; 1986661051; 2177026350; 2456956037; 2730485921; 2820302411;
    3259730800; 3345764771; 3516065817; 3600352804; 4094571909; 275423344;
    430227734; 506948616; 659060556; 883997877; 958139571; 1322822218;
    1537002063; 1747873779; 1955562222; 2024104815; 2227730452; 2361852424;
    2428436474; 2756734187; 3204031479; 3329325298 ].

(** Big-endian bytes to words and back. *)
Fixpoint words (p : list byte) : list N :=
  match p with
  | b0 :: b1 :: b2 :: b3 :: rest =>
      (Byte.to_N b0 * 2 ^ 24 + Byte.to_N b1 * 2 ^ 16
       + Byte.to_N b2 * 2 ^ 8 + Byte.to_N b3) :: words rest
  | _ => []
  end.

Definition byte_of (n : N) : byte :=
  match Byte.of_N (n mod 256) with Some b => b | None => x00 end.

Definition unword (w : N) : list byte :=
  [byte_of (w / 2 ^ 24); byte_of (w / 2 ^ 16); byte_of (w / 2 ^ 8); byte_of w].

(** The message schedule; [rev_w] holds w[i-1], w[i-2], ... *)
Fixpoint schedule (n : nat) (rev_w : list N) : list N :=
  match n with
  | O => rev_w
  | S n' =>
      let v1 := nth 1 rev_w 0 in
      let t1 := N.lxor (N.lxor (rotr v1 17) (rotr v1 19)) (N.shiftr v1 10) in
      let v2 := nth 14 rev_w 0 in
      let t2 := N.lxor (N.lxor (rotr v2 7) (rotr v2 18)) (N.shiftr v2 3) in
      let w := add32 (add32 (add32 t1 (nth 6 rev_w 0)) t2) (nth 15 rev_w 0) in
      schedule n' (w :: rev_w)
  end.

Record regs := Regs { ra : N; rb : N; rc : N; rd : N; re : N; rf : N; rg : N; rh : N }.

Definition round (r : regs) (kw : N * N) : regs :=
  let '(Regs a b c d e f g h) := r in
  let t1 :=
    add32 (add32 (add32 (add32 h
      (N.lxor (N.lxor (rotr e 6) (rotr e 11)) (rotr e 25)))
      (N.lxor (N.land e f) (N.land (not32 e) g))) (fst kw)) (snd kw) in
  let t2 :=
    add32 (N.lxor (N.lxor (rotr a 2) (rotr a 13)) (rotr a 22))
          (N.lxor (N.lxor (N.land a b) (N.land a c)) (N.land b c)) in
  Regs (add32 t1 t2) a b c (add32 d t1) e f g.

Definition block (h : regs) (p : list byte) : regs :=
  let w := rev (schedule 48 (rev (words p))) in
  let r := fold_left round (combine _K w) h in
  Regs (add32 (ra h) (ra r)) (add32 (rb h) (rb r)) (add32 (rc h) (rc r))
       (add32 (rd h) (rd r)) (add32 (re h) (re r)) (add32 (rf h) (rf r))
       (add32 (rg h) (rg r)) (add32 (rh h) (rh r)).

Fixpoint blocks (n : nat) (h : regs) (p : list byte) : regs :=
  match n with
  | O => h
  | S n' => blocks n' (block h (firstn 64 p)) (skipn 64 p)
  end.

(** Padding: 0x80, zeros up to 56 mod 64, then the bit length on 8 bytes. *)
Definition pad (msg : list byte) : list byte :=
  let l := N.of_nat (List.length msg) in
  let zeros := (64 + 55 - l mod 64) mod 64 in
  let bits := l * 8 in
  msg ++ x80 :: repeat x00 (N.to_nat zeros)
      ++ unword (u32 (bits / 2 ^ 32)) ++ unword (u32 bits).

Definition Sum256 (data : list byte) : list byte :=
  let p := pad data in
  let h0 := Regs 1779033703 3144134277 1013904242 2773480762
                 1359893119 2600822924 528734635 1541459225 in
  let '(Regs a b c d e f g h) := blocks (List.length p / 64) h0 p in
  unword a ++ unword b ++ unword c ++ unword d
    ++ unword e ++ unword f ++ unword g ++ unword h.
End SHA256.

(** ** The weave-key codec (main.go:165-185) *)

(** bytes.IndexRune(s, r) for a rune below utf8.RuneSelf is
    bytes.IndexByte(s, byte(r)): the index of the first occurrence, or -1. *)
Fixpoint IndexByte (s : list byte) (c : byte) : Z :=
  match s with
  | [] => -1
  | b :: rest =>
      if Byte.eqb b c then 0
      else let i := IndexByte rest c in
           if i =? -1 then -1 else i + 1
  end.

(** The test of the loop in encodeID: [b < 0x20 || b >= 0x80]. *)
Definition needs_hex (b : byte) : bool :=
  ((Byte.to_N b <? 32) || (128 <=? Byte.to_N b))%N.

(** encodeID: the loop returns the hex form of the WHOLE slice at the first
    byte outside [0x20, 0x80); [whole] is the slice, [rest] what the loop has
    still to look at. *)
Fixpoint encodeID_loop (whole rest : list byte) : string :=
  match rest with
  | [] => string_of_list_byte whole
  | b :: rest' =>
      if needs_hex b then ToUpper (EncodeToString whole)
      else encodeID_loop whole rest'
  end.

Definition encodeID (id : list byte) : string := encodeID_loop id id.

(** key[:n] and key[n:] for an index inside the slice. *)
Definition slice_to {A} (l : list A) (n : Z) : list A := firstn (Z.to_nat n) l.
Definition slice_from {A} (l : list A) (n : Z) : list A := skipn (Z.to_nat n) l.

(** ** A fragment of [fmt]

    The verbs and operand types this program uses: [%s], [%d], [%X], [%v]
    (the verb fmt itself applies to surplus operands) and [%%], on strings,
    integers and byte arrays or slices.  No format string of the
    program has flags, a width, a precision or an argument index, so the
    scanner reads the byte after [%] as the verb.  A verb outside the
    fragment is rendered the way fmt renders a verb that does not fit its
    operand. *)

Inductive int_type : Type := Tint | Tint8 | Tint64 | Tuint64.

Inductive arg : Type :=
| AString (s : string)
| AInteger (t : int_type) (z : Z)
| AByteArray (n : nat) (b : list byte)   (* [n]byte, as sha256.Sum256 returns *)
| ABytes (b : list byte).                (* []byte *)

Abbreviation AInt := (AInteger Tint).
Abbreviation AInt8 := (AInteger Tint8).
Abbreviation AInt64 := (AInteger Tint64).
Abbreviation AUint64 := (AInteger Tuint64).

Definition fmt_d (z : Z) : string :=
  DecimalString.NilZero.string_of_int (Z.to_int z).

Definition fmt_X (z : Z) : string :=
  ToUpper (HexadecimalString.NilZero.string_of_int (Z.to_hex_int z)).

Fixpoint join (sep : string) (l : list string) : string :=
  match l with
  | [] => ""
  | [x] => x
  | x :: rest => x ++ sep ++ join sep rest
  end.

(** reflect.TypeOf(arg).String() *)
Definition type_name (a : arg) : string :=
  match a with
  | AString _ => "string"
  | AInteger Tint _ => "int"
  | AInteger Tint8 _ => "int8"
  | AInteger Tint64 _ => "int64"
  | AInteger Tuint64 _ => "uint64"
  | AByteArray n _ => "[" ++ fmt_d (Z.of_nat n) ++ "]uint8"
  | ABytes _ => "[]uint8"
  end.

Definition byte_list_v (b : list byte) : string :=
  "[" ++ join " " (map (fun x => fmt_d (Z.of_N (Byte.to_N x))) b) ++ "]".

(** The operand under [%v]. *)
Definition print_v (a : arg) : string :=
  match a with
  | AString s => s
  | AInteger _ z => fmt_d z
  | AByteArray _ b | ABytes b => byte_list_v b
  end.

Definition badVerb (verb : ascii) (a : arg) : string :=
  "%!" ++ String verb "(" ++ type_name a ++ "=" ++ print_v a ++ ")".

Definition printArg (a : arg) (verb : ascii) : string :=
  match a, verb with
  | _, "v"%char => print_v a
  | AString s, "s"%char => s
  | AString s, "X"%char => upper_hex (list_byte_of_string s)
  | AInteger _ z, "d"%char => fmt_d z
  | AInteger _ z, "X"%char => fmt_X z
  | (AByteArray _ b | ABytes b), "s"%char => string_of_list_byte b
  | (AByteArray _ b | ABytes b), "X"%char => upper_hex b
  | (AByteArray _ b | ABytes b), "d"%char => byte_list_v b
  | _, _ => badVerb verb a
  end.

(** Operands left over once the format is used up. *)
Definition extra (a : list arg) : string :=
  match a with
  | [] => ""
  | _ => "%!(EXTRA "
         ++ join ", " (map (fun x => type_name x ++ "=" ++ print_v x) a) ++ ")"
  end.

(** fmt.Sprintf: the loop of fmt's doPrintf. *)
Fixpoint Sprintf (format : string) (a : list arg) : string :=
  match format with
  | EmptyString => extra a
  | String "%" EmptyString => "%!(NOVERB)" ++ extra a
  | String "%" (String verb rest) =>
      if Ascii.eqb verb "%" then String "%" (Sprintf rest a)
      else match a with
           | [] => "%!" ++ String verb "(MISSING)" ++ Sprintf rest []
           | x :: a' => printArg x verb ++ Sprintf rest a'
           end
  | String c rest => String c (Sprintf rest a)
  end.

(** parseWeaveKey (main.go:167). *)
Definition parseWeaveKey (key : list byte) : string :=
  let cut := IndexByte key ":"%byte in
  if cut =? -1 then encodeID key
  else
    let prefix := slice_to key cut in
    let id := slice_from key (cut + 1) in
    Sprintf "%s:%s" [AString (encodeID prefix); AString (encodeID id)].


(** ** Effects

    What the process has written and which storage handles it has asked
    for so far. *)
Record World : Type := mkWorld {
  stdout : string;
  stderr : string;
  opened : list (string * string)   (* NewRocksDB(name, dir) calls, in order *)
}.

Definition empty_world : World := mkWorld "" "" [].

(** How a computation ends: with a value, with a panic nobody recovers (the
    Go runtime then ends the process with status 2), or in [os.Exit]. *)
Inductive outcome (A : Type) : Type :=
| Done (a : A)
| Panic (msg : string)
| Exit (code : Z).
Arguments Done {A} a.
Arguments Panic {A} msg.
Arguments Exit {A} code.

Definition M (A : Type) : Type := World -> World * outcome A.

Definition ret {A} (a : A) : M A := fun w => (w, Done a).

Definition bind {A B} (c : M A) (k : A -> M B) : M B :=
  fun w =>
    match c w with
    | (w', Done a) => k a w'
    | (w', Panic msg) => (w', Panic msg)
    | (w', Exit code) => (w', Exit code)
    end.

Declare Scope go_scope.
Delimit Scope go_scope with go.
Notation "x <- c ;; k" := (bind c (fun x => k))
  (at level 61, c at next level, right associativity) : go_scope.
Notation "' pat <- c ;; k" := (bind c (fun x => match x with pat => k end))
  (at level 61, pat pattern, c at next level, right associativity) : go_scope.
Notation "c ;; k" := (bind c (fun _ => k))
  (at level 61, right associativity) : go_scope.
Local Open Scope go_scope.

Definition panic {A} (msg : string) : M A := fun w => (w, Panic msg).
Definition os_Exit {A} (code : Z) : M A := fun w => (w, Exit code).

(** The exit status the operating system sees. *)
Definition exit_status {A} (o : outcome A) : Z :=
  match o with
  | Done _ => 0
  | Panic _ => 2
  | Exit code => code
  end.

Definition write_stdout (s : string) : M unit :=
  fun w => (mkWorld (stdout w ++ s) (stderr w) (opened w), Done tt).
Definition write_stderr (s : string) : M unit :=
  fun w => (mkWorld (stdout w) (stderr w ++ s) (opened w), Done tt).

Definition Printf (format : string) (a : list arg) : M unit :=
  write_stdout (Sprintf format a).
Definition Fprintf_stderr (format : string) (a : list arg) : M unit :=
  write_stderr (Sprintf format a).

(** fmt.Println: the operands under [%v], a space between them, a newline. *)
Definition Sprintln (a : list arg) : string := join " " (map print_v a) ++ nl.
Definition Println (a : list arg) : M unit := write_stdout (Sprintln a).
Definition Fprintln_stderr (a : list arg) : M unit := write_stderr (Sprintln a).

(** [l[i]]: an index outside the slice is a run-time panic. *)
Definition index {A} (l : list A) (i : Z) : M A :=
  match (if i <? 0 then None else nth_error l (Z.to_nat i)) with
  | Some x => ret x
  | None =>
      panic (Sprintf "runtime error: index out of range [%d] with length %d"
               [AInt i; AInt (len l)])
  end.

Definition divide_error : string := "runtime error: integer divide by zero".

Definition int64_div (x y : Z) : M Z :=
  match Int64.div x y with Some q => ret q | None => panic divide_error end.
Definition int64_rem (x y : Z) : M Z :=
  match Int64.rem x y with Some r => ret r | None => panic divide_error end.

(** A Go [error] is kept as its text, [err.Error()]. *)
Definition error : Type := string.

(** [for idx, x := range l { body }] *)
Fixpoint for_range_from {A} (idx : Z) (l : list A) (body : Z -> A -> M unit)
  : M unit :=
  match l with
  | [] => ret tt
  | x :: rest => body idx x ;; for_range_from (idx + 1) rest body
  end.
Definition for_range {A} (l : list A) (body : Z -> A -> M unit) : M unit :=
  for_range_from 0 l body.

(** A format of several lines: each item is followed by a newline. *)
Fixpoint lines (l : list string) : string :=
  match l with
  | [] => ""
  | x :: rest => x ++ nl ++ lines rest
  end.

(** ** [strings], [strconv] and hex.DecodeString *)

(** s[:n] and s[n:] for an index inside the string. *)
Definition str_to (s : string) (n : Z) : string := String.substring 0 (Z.to_nat n) s.
Definition str_from (s : string) (n : Z) : string :=
  String.substring (Z.to_nat n) (String.length s - Z.to_nat n) s.

(** strings.HasSuffix: [len(s) >= len(suffix) && s[len(s)-len(suffix):] == suffix] *)
Definition HasSuffix (s suffix : string) : bool :=
  (slen s >=? slen suffix) && String.eqb (str_from s (slen s - slen suffix)) suffix.

(** strings.LastIndex(s, sep) for a separator of one byte: the index of its
    last occurrence, or -1. *)
Fixpoint LastIndexByte (s : string) (c : ascii) : Z :=
  match s with
  | EmptyString => -1
  | String a rest =>
      let i := LastIndexByte rest c in
      if i =? -1 then (if Ascii.eqb a c then 0 else -1) else i + 1
  end.

Definition is_digit (c : ascii) : bool :=
  let n := N_of_ascii c in ((48 <=? n) && (n <=? 57))%N.

(** The decimal value of a string of digits; [None] when a byte is not one. *)
Fixpoint digits_value (acc : Z) (s : string) : option Z :=
  match s with
  | EmptyString => Some acc
  | String c rest =>
      if is_digit c then digits_value (acc * 10 + (Z.of_N (N_of_ascii c) - 48)) rest
      else None
  end.

(** Split a leading sign off: the flag says "negative". *)
Definition split_sign (s : string) : bool * string :=
  match s with
  | String "-" rest => (true, rest)
  | String "+" rest => (false, rest)
  | _ => (false, s)
  end.

(** hex.DecodeString.  The text of InvalidByteError goes through [%#U]. *)
Definition fromHexChar (c : ascii) : option N :=
  let n := N_of_ascii c in
  if ((48 <=? n) && (n <=? 57))%N then Some (n - 48)%N
  else if ((97 <=? n) && (n <=? 102))%N then Some (n - 87)%N
  else if ((65 <=? n) && (n <=? 70))%N then Some (n - 55)%N
  else None.

(** [%#U] of a rune below 0x100: U+00XX, then the character between quotes
    when strconv.IsPrint holds of it (UTF-8 encoded from 0x80 on). *)
Definition fmt_sharpU (c : ascii) : string :=
  let n := N_of_ascii c in
  let code := "U+00" ++ String (table_at udigits (n / 16))
                          (String (table_at udigits (n mod 16)) "") in
  if ((32 <=? n) && (n <=? 126))%N then code ++ " '" ++ String c "'"
  else if ((161 <=? n) && negb (n =? 173))%N then
    code ++ " '" ++ String (ascii_of_N (192 + n / 64))
                      (String (ascii_of_N (128 + n mod 64)) "'")
  else code.

Definition InvalidByteError (c : ascii) : error :=
  "encoding/hex: invalid byte: " ++ fmt_sharpU c.
Definition ErrLength : error := "encoding/hex: odd length hex string".

Fixpoint DecodeString (s : string) : list byte * option error :=
  match s with
  | EmptyString => ([], None)
  | String p EmptyString =>
      match fromHexChar p with
      | None => ([], Some (InvalidByteError p))
      | Some _ => ([], Some ErrLength)
      end
  | String p (String q rest) =>
      match fromHexChar p, fromHexChar q with
      | None, _ => ([], Some (InvalidByteError p))
      | _, None => ([], Some (InvalidByteError q))
      | Some a, Some b =>
          let '(out, err) := DecodeString rest in
          (SHA256.byte_of (a * 16 + b) :: out, err)
      end
  end.

Fixpoint bytes_eqb (a b : list byte) : bool :=
  match a, b with
  | [], [] => true
  | x :: a', y :: b' => Byte.eqb x y && bytes_eqb a' b'
  | _, _ => false
  end.

(** ** The tree engine, seen from the viewer

    The package [iavl] itself is not part of the sources at hand; the viewer
    uses it through the handful of methods below. *)

(** Modelled from the spec: the TreeSnapshot of the data model, "an
    immutable, ordered view of all (key, value) pairs committed at a given
    version, plus derived metadata": the root hash and the height (the entry
    count is the length of the list). *)
Record Snapshot : Type := mkSnapshot {
  entries : list (list byte * list byte);
  root_hash : list byte;
  tree_height : Z
}.

Definition empty_snapshot : Snapshot := mkSnapshot [] [] 0.

(** Modelled from the spec: the tree facade over a store, iavl.MutableTree.
    It knows "the ordered list of all versions ever committed to this store"
    with their snapshots, and holds the snapshot loaded last. *)
Record MutableTree : Type := mkTree {
  versions : list (Z * Snapshot);
  loaded : Snapshot
}.

(** Modelled from the spec: the methods Size, Height, Hash and
    AvailableVersions of the tree, read off the loaded snapshot and the list
    of versions. *)
Definition Size (t : MutableTree) : Z := len (entries (loaded t)).
Definition Height (t : MutableTree) : Z := tree_height (loaded t).
Definition Hash (t : MutableTree) : list byte := root_hash (loaded t).
Definition AvailableVersions (t : MutableTree) : list Z := map fst (versions t).

Fixpoint lookup_version (v : Z) (vs : list (Z * Snapshot)) : option Snapshot :=
  match vs with
  | [] => None
  | (v', s) :: rest => if v' =? v then Some s else lookup_version v rest
  end.

(** The greatest version number committed, if there is one. *)
Fixpoint latest_version (vs : list (Z * Snapshot)) : option Z :=
  match vs with
  | [] => None
  | (v, _) :: rest =>
      match latest_version rest with
      | None => Some v
      | Some m => Some (Z.max v m)
      end
  end.

(** Modelled from the spec: the method LoadVersion of iavl.MutableTree, which
    is not among the sources.  "Version 0 is a sentinel meaning load latest
    available version.  Loading a version that does not exist fails."  The
    loader "reports the version actually loaded".  The spec leaves open the
    number reported along with a failure; 0 is taken here. *)
Definition LoadVersion (t : MutableTree) (target : Z)
  : MutableTree * (Z * option error) :=
  let wanted := if target =? 0 then latest_version (versions t) else Some target in
  match wanted with
  | None => (t, (0, Some "no version to load"))
  | Some v =>
      match lookup_version v (versions t) with
      | Some s => (mkTree (versions t) s, (v, None))
      | None =>
          (t, (0, Some (Sprintf "version %d does not exist" [AInt64 v])))
      end
  end.

(** Modelled from the spec: Iterate of the tree engine, the "full-tree,
    key-ordered traversal" that hands every pair to a visitor; the visitor
    answers whether to stop.  The state [S] stands for the variables the
    visitor closure captures. *)
Fixpoint iterate {S} (es : list (list byte * list byte))
    (fn : S -> list byte -> list byte -> M (S * bool)) (s : S) : M (S * bool) :=
  match es with
  | [] => ret (s, false)
  | (k, v) :: rest =>
      '(s', stop) <- fn s k v ;;
      if stop : bool then ret (s', true) else iterate rest fn s'
  end.

Definition Iterate {S} (t : MutableTree) := @iterate S (entries (loaded t)).

(** Modelled from the spec: Get of the tree engine, a lookup in the loaded
    snapshot; [None] is Go's nil value. *)
Definition Get (t : MutableTree) (key : list byte) : option (list byte) :=
  option_map snd (find (fun e => bytes_eqb (fst e) key) (entries (loaded t))).

(** ** The libraries outside the repository

    The storage engine (tm-db), the codecs of the Cosmos SDK and of
    Ethermint, strconv.Quote (which needs the Unicode tables), and the two
    methods of the tree engine whose result the spec does not determine:
    what NewMutableTree finds in a store, and the outline RenderShape draws. *)
Class External : Type := {
  DB : Type;
  NewRocksDB : string -> string -> DB + error;
  NewPrefixDB : DB -> list byte -> DB;
  NewMutableTree : DB -> Z -> MutableTree + error;
  RenderShape :
    MutableTree -> string -> (list byte -> Z -> bool -> string) -> list string;
  Quote : string -> string;
  MustLengthPrefix : list byte -> list byte + error;
  AddressStoreKey : list byte -> list byte;
  UnmarshalCoin : list byte -> string + error;
  UnmarshalAccountSequence : list byte -> Z + error
}.

(** ** The program *)
Section Program.

Context {X : External}.

(** strconv.Atoi: an optional sign and decimal digits, inside the range of
    [int]; its two failures are a NumError around ErrSyntax or ErrRange. *)
Definition Atoi (s : string) : Z + error :=
  let '(negative, body) := split_sign s in
  match (if String.eqb body "" then None else digits_value 0 body) with
  | None => inr ("strconv.Atoi: parsing " ++ Quote s ++ ": invalid syntax")
  | Some n =>
      let v := if negative : bool then - n else n in
      if (Int64.min_int <=? v) && (v <=? Int64.max_int) then inl v
      else inr ("strconv.Atoi: parsing " ++ Quote s ++ ": value out of range")
  end.

(** dbm.NewRocksDB, with the request recorded. *)
Definition open_rocksdb (name dir : string) : M (DB + error) :=
  fun w => (mkWorld (stdout w) (stderr w) (opened w ++ [(name, dir)]),
            Done (NewRocksDB name dir)).

(** OpenDB (main.go:88). *)
Definition OpenDB (dir : string) : M (DB + error) :=
  match (if HasSuffix dir ".db" then Some (str_to dir (slen dir - 3))
         else if HasSuffix dir ".db/" then Some (str_to dir (slen dir - 4))
         else None) with
  | None => ret (inr "database directory must end with .db")
  | Some dir =>
      let cut := LastIndexByte dir "/" in
      if cut =? -1 then ret (inr (Sprintf "cannot cut paths on %s" [AString dir]))
      else
        let name := str_from dir (cut + 1) in
        r <- open_rocksdb name (str_to dir cut) ;;
        match r with
        | inr err => ret (inr err)
        | inl db => ret (inl db)
        end
  end.

(** ReadTree (main.go:137): the tree pointer and the error, as Go returns
    them. *)
Definition ReadTree (dir : string) (version : Z) (prefix : list byte)
  : M (option MutableTree * option error) :=
  r <- OpenDB dir ;;
  match r with
  | inr err => ret (None, Some err)
  | inl db =>
      let db := if negb (len prefix =? 0) then NewPrefixDB db prefix else db in
      match NewMutableTree db DefaultCacheSize with
      | inr err => ret (None, Some err)
      | inl tree =>
          let '(tree, (ver, err)) := LoadVersion tree version in
          Printf (lines ["Got version: %d"]) [AInt64 ver] ;;
          ret (Some tree, err)
      end
  end.

(** A method call through a tree pointer. *)
Definition deref (tree : option MutableTree) : M MutableTree :=
  match tree with
  | Some t => ret t
  | None => panic "runtime error: invalid memory address or nil pointer dereference"
  end.

(** PrintKeys (main.go:155). *)
Definition PrintKeys_visit (_ : unit) (key value : list byte) : M (unit * bool) :=
  let printKey := parseWeaveKey key in
  let digest := SHA256.Sum256 value in
  Printf (lines ["  %s"; "    %X"]) [AString printKey; AByteArray 32 digest] ;;
  ret (tt, false).

Definition PrintKeys (tree : option MutableTree) : M unit :=
  Println [AString "Printing all keys with hashed values (to detect diff)"] ;;
  t <- deref tree ;;
  Iterate t PrintKeys_visit tt ;;
  ret tt.

(** nodeEncoder (main.go:193). *)
Definition nodeEncoder (id : list byte) (depth : Z) (isLeaf : bool) : string :=
  let prefix := Sprintf "-%d " [AInt depth] in
  let prefix := if isLeaf then Sprintf "*%d " [AInt depth] else prefix in
  if len id =? 0 then Sprintf "%s<nil>" [AString prefix]
  else Sprintf "%s%s" [AString prefix; AString (parseWeaveKey id)].

(** PrintShape (main.go:187). *)
Definition PrintShape (tree : option MutableTree) : M unit :=
  t <- deref tree ;;
  let shape := RenderShape t "  " nodeEncoder in
  Println [AString (join nl shape)].

(** PrintVersions (main.go:204). *)
Definition PrintVersions (tree : option MutableTree) : M unit :=
  t <- deref tree ;;
  let versions := AvailableVersions t in
  Println [AString "Available versions:"] ;;
  for_range versions (fun _ v => Printf (lines ["  %d"]) [AInt v]).

(** PrintBalance (main.go:212). *)
Definition PrintBalance (tree : option MutableTree) (addr : list byte) : M unit :=
  let key := [x02] in
  match MustLengthPrefix addr with
  | inr err => panic err
  | inl lp =>
      let key := (key ++ lp)%list in
      let denom := "basecro" in
      let key := (key ++ list_byte_of_string denom)%list in
      t <- deref tree ;;
      match Get t key with
      | None => Println [AString "not found"]
      | Some value =>
          match UnmarshalCoin value with
          | inr err => panic err
          | inl balance => Println [AString balance]
          end
      end
  end.

(** PrintAccount (main.go:229). *)
Definition PrintAccount (tree : option MutableTree) (addr : list byte) : M unit :=
  let key := AddressStoreKey addr in
  t <- deref tree ;;
  match Get t key with
  | None => Println [AString "not found"]
  | Some value =>
      match UnmarshalAccountSequence value with
      | inr err => panic err
      | inl sequence => Println [AUint64 sequence]
      end
  end.

(** Max (main.go:317). *)
Definition Max (x y : Z) : Z := if x >? y then x else y.

(** The variables the visitor of PrintKeysWithValueSize captures. *)
Record stats : Type := mkStats {
  count : Z;
  keySizeTotal : Z;
  valueSizeTotal : Z;
  keyMaxSize : Z;
  valueMaxSize : Z
}.

(** The visitor of PrintKeysWithValueSize (main.go:295-311). *)
Definition stats_visit (t : MutableTree) (a : stats) (key value : list byte)
  : M (stats * bool) :=
  let printKey := parseWeaveKey key in
  let digest := SHA256.Sum256 value in
  let valueSize := len value in
  Printf (lines ["  %s"; "    %X"])
    [AString printKey; AByteArray 32 digest; AInt valueSize] ;;
  let count := Int64.add (count a) 1 in
  let keySizeTotal := Int64.add (keySizeTotal a) (len key) in
  let valueSizeTotal := Int64.add (valueSizeTotal a) (len value) in
  let keyMaxSize := Max (keyMaxSize a) (len key) in
  let valueMaxSize := Max (valueMaxSize a) (len value) in
  (if Size t >=? 100 then
     step <- int64_div (Size t) 100 ;;
     r <- int64_rem count step ;;
     if r =? 0 then
       percent <- int64_div (Int64.mul count 100) (Size t) ;;
       Printf (lines ["progress:  %d%%"]) [AInt64 percent]
     else ret tt
   else ret tt) ;;
  ret (mkStats count keySizeTotal valueSizeTotal keyMaxSize valueMaxSize, false).

(** PrintKeysWithValueSize (main.go:288). *)
Definition PrintKeysWithValueSize (tree : option MutableTree) : M unit :=
  Println [AString "Printing all keys with hashed values (to detect diff)"] ;;
  t <- deref tree ;;
  '(a, _) <- Iterate t (stats_visit t) (mkStats 0 0 0 0 0) ;;
  Printf (lines ["%d keys, keySizeTotal: %d, valueSizeTotal: %d"])
    [AInt64 (count a); AInt (keySizeTotal a); AInt (valueSizeTotal a)] ;;
  avgKey <- int64_div (keySizeTotal a) (count a) ;;
  avgValue <- int64_div (valueSizeTotal a) (count a) ;;
  Printf (lines ["avg key size:%d, avg value size:%d"])
    [AInt64 avgKey; AInt64 avgValue] ;;
  Printf (lines ["max key size:%d, max value size:%d"])
    [AInt64 (keyMaxSize a); AInt64 (valueMaxSize a)].

(** The catalog of PrintStatistics (main.go:250). *)
Definition modules : list string :=
  [ "capability"; "params"; "transfer"; "staking"; "slashing"; "distribution";
    "feegrant"; "upgrade"; "authz"; "evidence"; "feemarket"; "gravity"; "gov";
    "cronos"; "ibc"; "bank"; "mint"; "acc"; "evm" ].

(** The body of the loop of PrintStatistics (main.go:273-283); a [continue]
    ends the body. *)
Definition PrintStatistics_body (catalog : list string) (dbpath : string)
    (version : Z) (idx : Z) (mod_ : string) : M unit :=
  let prefix := Sprintf "s/k:%s/" [AString mod_] in
  '(tree, err) <- ReadTree dbpath version (list_byte_of_string prefix) ;;
  match err with
  | Some err =>
      Fprintf_stderr (lines ["Error reading %s data: %s"])
        [AString mod_; AString err]
  | None =>
      Printf (lines ["iterating over %s  (%d/%d)"])
        [AString mod_; AInt (idx + 1); AInt (len catalog)] ;;
      t <- deref tree ;;
      Printf (lines ["tree size:%d height:%d"])
        [AInt64 (Size t); AInt8 (Height t)] ;;
      PrintKeysWithValueSize tree ;;
      Println [AString ""]
  end.

(** The loop of PrintStatistics over a catalog. *)
Definition PrintStatistics_over (catalog : list string) (dbpath : string)
    (version : Z) : M unit :=
  for_range catalog (PrintStatistics_body catalog dbpath version).

(** PrintStatistics (main.go:248). *)
Definition PrintStatistics (dbpath : string) (version : Z) : M unit :=
  PrintStatistics_over modules dbpath version.

Definition usage : list string :=
  [ "Usage: iaviewer <data|shape|versions> <leveldb dir> <prefix> [version number]";
    "<prefix> is the prefix of db, and the iavl tree of different modules in cosmos-sdk uses ";
    "different <prefix> to identify, just like " ++ dquote ++ "s/k:gov/" ++ dquote
      ++ " represents the prefix of gov module" ].

Definition commands : list string :=
  ["data"; "shape"; "versions"; "balance"; "nonce"; "stastistics"].

Definition string_in (s : string) (l : list string) : bool :=
  existsb (String.eqb s) l.

(** main (main.go:27), on [os.Args[1:]]. *)
Definition main (args : list string) : M unit :=
  bad <- (if len args <? 3 then ret true
          else a0 <- index args 0 ;; ret (negb (string_in a0 commands))) ;;
  (if bad : bool then
     for_range usage (fun _ line => Fprintln_stderr [AString line]) ;;
     os_Exit 1
   else ret tt) ;;
  version <- (if len args >=? 4 then
                a3 <- index args 3 ;;
                match Atoi a3 with
                | inr err =>
                    Fprintf_stderr (lines ["Invalid version number: %s"])
                      [AString err] ;;
                    os_Exit 1
                | inl v => ret v
                end
              else ret 0) ;;
  a0 <- index args 0 ;;
  tree <- (if negb (String.eqb a0 "stastistics") then
             a1 <- index args 1 ;;
             a2 <- index args 2 ;;
             '(tree, err) <- ReadTree a1 version (list_byte_of_string a2) ;;
             match err with
             | Some err =>
                 Fprintf_stderr (lines ["Error reading data: %s"]) [AString err] ;;
                 os_Exit 1
             | None => ret tree
             end
           else ret None) ;;
  if String.eqb a0 "data" then
    PrintKeys tree ;;
    t <- deref tree ;;
    Printf (lines ["Hash: %X"]) [ABytes (Hash t)] ;;
    Printf (lines ["Size: %X"]) [AInt64 (Size t)]
  else if String.eqb a0 "shape" then PrintShape tree
  else if String.eqb a0 "versions" then PrintVersions tree
  else if String.eqb a0 "balance" then
    a4 <- index args 4 ;;
    let '(addr, err) := DecodeString a4 in
    match err with
    | Some err => panic err
    | None => PrintBalance tree addr
    end
  else if String.eqb a0 "nonce" then
    a4 <- index args 4 ;;
    let '(addr, err) := DecodeString a4 in
    match err with
    | Some err => panic err
    | None => PrintAccount tree addr
    end
  else if String.eqb a0 "stastistics" then
    a1 <- index args 1 ;;
    PrintStatistics a1 version
  else ret tt.

End Program.

(** ** The words of the specification *)

(** The printable-ASCII range as the data model of the spec gives it:
    0x20-0x7F. *)
Definition printable (b : byte) : Prop := (32 <= Byte.to_N b <= 127)%N.

(** [s] ends in [suffix]. *)
Definition ends_with (s suffix : string) : Prop := exists p, s = p ++ suffix.

(** [m] is the greatest element of [l]. *)
Definition is_maximum (m : Z) (l : list Z) : Prop :=
  In m l /\ Forall (fun x => x <= m) l.

Fixpoint sum_Z (l : list Z) : Z :=
  match l with
  | [] => 0
  | x :: rest => x + sum_Z rest
  end.

Definition key_lengths (t : MutableTree) : list Z :=
  map (fun e => len (fst e)) (entries (loaded t)).
Definition value_lengths (t : MutableTree) : list Z :=
  map (fun e => len (snd e)) (entries (loaded t)).

(** The counters of the statistics (the running count times 100 is one of
    them) stay inside [int64]. *)
Definition sizes_fit (t : MutableTree) : Prop :=
  Size t * 100 <= Int64.max_int
  /\ sum_Z (key_lengths t) <= Int64.max_int
  /\ sum_Z (value_lengths t) <= Int64.max_int.

(** The running maximum of the statistics: Max folded over the lengths. *)
Definition max_from (m : Z) (l : list Z) : Z := fold_left Z.max l m.

(** The last byte of a string. *)
Fixpoint last_char (s : string) : option ascii :=
  match s with
  | EmptyString => None
  | String c rest =>
      match last_char rest with
      | None => Some c
      | Some d => Some d
      end
  end.

(** What the two traversals write for one pair. *)
Definition digest_entry (key value : list byte) : string :=
  lines ["  " ++ parseWeaveKey key; "    " ++ upper_hex (SHA256.Sum256 value)].

(** A progress line is due after the [c]-th pair of [n]. *)
Definition progress_due (n c : Z) : bool :=
  (100 <=? n) && (c mod (n / 100) =? 0).

Definition progress_line (n c : Z) : string :=
  lines ["progress:  " ++ fmt_d (c * 100 / n) ++ "%"].

(** The text of the statistics traversal over [es], the pairs after the
    first [c] of a snapshot of [n]. *)
Fixpoint traversal_text (n c : Z) (es : list (list byte * list byte)) : string :=
  match es with
  | [] => ""
  | (k, v) :: rest =>
      Sprintf (lines ["  %s"; "    %X"])
        [AString (parseWeaveKey k); AByteArray 32 (SHA256.Sum256 v); AInt (len v)]
      ++ (if progress_due n (c + 1) then progress_line n (c + 1) else "")
      ++ traversal_text n (c + 1) rest
  end.

(** ** A store to run the program on

    A database [application.db] under [/data]: a bank module with two
    committed versions, a gov module whose only version is empty, and
    nothing under any other prefix. *)
Definition bytes_of : string -> list byte := list_byte_of_string.

Definition bank_v1 : Snapshot :=
  mkSnapshot [(bytes_of "a", bytes_of "b")] [x01; xab] 0.
Definition bank_v2 : Snapshot :=
  mkSnapshot [(bytes_of "a", bytes_of "b"); (bytes_of "k:1", [])] [x02] 1.
Definition bank_tree : MutableTree :=
  mkTree [(1, bank_v1); (2, bank_v2)] empty_snapshot.
Definition gov_tree : MutableTree := mkTree [(1, empty_snapshot)] empty_snapshot.

(** Two hundred pairs, the keys 0x00, 0x01, ... in order, the values empty. *)
Definition wide_snapshot : Snapshot :=
  mkSnapshot
    (map (fun n => ([SHA256.byte_of (N.of_nat n)], [])) (seq 0 200)) [x03] 8.

Definition fixture : External := {|
  DB := list byte;
  NewRocksDB name dir :=
    if (String.eqb name "application" && String.eqb dir "/data")%bool
    then inl [] else inr "no such database";
  NewPrefixDB db p := (db ++ p)%list;
  NewMutableTree db _ :=
    if bytes_eqb db (bytes_of "s/k:bank/") then inl bank_tree
    else if bytes_eqb db (bytes_of "s/k:gov/") then inl gov_tree
    else inl (mkTree [] empty_snapshot);
  RenderShape _ _ _ := [];
  Quote s := dquote ++ s ++ dquote;
  MustLengthPrefix a := inl a;
  AddressStoreKey a := x01 :: a;
  UnmarshalCoin _ := inl "1basecro";
  UnmarshalAccountSequence _ := inl 7
|}.

(** [w] with [s] appended to its standard output. *)
Definition emit (s : string) (w : World) : World :=
  mkWorld (stdout w ++ s) (stderr w) (opened w).
Definition emit_err (s : string) (w : World) : World :=
  mkWorld (stdout w) (stderr w ++ s) (opened w).

(** The first line of both reports, and the line of the totals. *)
Definition header : string :=
  Sprintln [AString "Printing all keys with hashed values (to detect diff)"].

Definition totals_line (t : MutableTree) : string :=
  Sprintf (lines ["%d keys, keySizeTotal: %d, valueSizeTotal: %d"])
    [AInt64 (Size t); AInt (sum_Z (key_lengths t)); AInt (sum_Z (value_lengths t))].

(** ** Further vocabulary *)

(** A character of the range 0x20-0x7F. *)
Definition printable_char (c : ascii) : bool :=
  ((32 <=? N_of_ascii c) && (N_of_ascii c <=? 127))%N.

(** [c] occurs in [s]. *)
Fixpoint string_mem (c : ascii) (s : string) : bool :=
  match s with
  | EmptyString => false
  | String a rest => Ascii.eqb a c || string_mem c rest
  end.

(** The texts [f x] of the items of a list, one after the other. *)
Fixpoint text_of {A} (f : A -> string) (l : list A) : string :=
  match l with
  | [] => ""
  | x :: rest => f x ++ text_of f rest
  end.

(** The key PrintBalance looks up: the tag 0x02, the length-prefixed
    address, the denomination. *)
Definition balance_key (length_prefixed : list byte) : list byte :=
  (x02 :: length_prefixed ++ list_byte_of_string "basecro")%list.

(** The switch at the end of main (main.go:62-85), for the command [a0],
    once the version is parsed and the tree is read. *)
Definition dispatch {X : External} (args : list string) (a0 : string)
    (version : Z) (tree : option MutableTree) : M unit :=
  if String.eqb a0 "data" then
    PrintKeys tree ;;
    t <- deref tree ;;
    Printf (lines ["Hash: %X"]) [ABytes (Hash t)] ;;
    Printf (lines ["Size: %X"]) [AInt64 (Size t)]
  else if String.eqb a0 "shape" then PrintShape tree
  else if String.eqb a0 "versions" then PrintVersions tree
  else if String.eqb a0 "balance" then
    a4 <- index args 4 ;;
    let '(addr, err) := DecodeString a4 in
    match err with
    | Some err => panic err
    | None => PrintBalance tree addr
    end
  else if String.eqb a0 "nonce" then
    a4 <- index args 4 ;;
    let '(addr, err) := DecodeString a4 in
    match err with
    | Some err => panic err
    | None => PrintAccount tree addr
    end
  else if String.eqb a0 "stastistics" then
    a1 <- index args 1 ;;
    PrintStatistics a1 version
  else ret tt.

(** The version main works with: 0 without a fourth argument, else what
    strconv.Atoi makes of it. *)
Definition version_of {X : External} (rest : list string) (version : Z) : Prop :=
  (rest = [] /\ version = 0)
  \/ (exists a3 more, rest = a3 :: more /\ Atoi a3 = inl version).

(** A snapshot with an account and a balance of the address 0xAA, as the
    stand-in codecs of [fixture] key them. *)
Definition ledger : Snapshot :=
  mkSnapshot
    [ (AddressStoreKey (External := fixture) [xaa], bytes_of "account");
      (balance_key [xaa], bytes_of "coin") ] [x04] 1.

(** * Proofs *)

(** ** Strings *)

Lemma append_empty_r (s : string) : s ++ "" = s.
Proof. induction s as [|c s IH]; simpl; [reflexivity | now rewrite IH]. Qed.

Lemma append_assoc (a b c : string) : (a ++ b) ++ c = a ++ (b ++ c).
Proof. induction a as [|x a IH]; simpl; [reflexivity | now rewrite IH]. Qed.

Lemma length_append (a b : string) :
  String.length (a ++ b) = (String.length a + String.length b)%nat.
Proof. induction a as [|x a IH]; simpl; [reflexivity | now rewrite IH]. Qed.

Lemma substring_zero_all (s : string) : String.substring 0 (String.length s) s = s.
Proof. induction s as [|c s IH]; simpl; [reflexivity | now rewrite IH]. Qed.

Lemma substring_skip (p q : string) (n : nat) :
  String.substring (String.length p) n (p ++ q) = String.substring 0 n q.
Proof.
  induction p as [|c p IH]; simpl; [reflexivity | exact IH].
Qed.

Lemma substring_take (p q : string) :
  String.substring 0 (String.length p) (p ++ q) = p.
Proof.
  induction p as [|c p IH]; simpl.
  - destruct q; reflexivity.
  - now rewrite IH.
Qed.

Lemma substring_split (s : string) (n : nat) :
  (n <= String.length s)%nat ->
  s = String.substring 0 n s ++ String.substring n (String.length s - n) s.
Proof.
  revert n. induction s as [|c s IH]; intros n Hn; simpl in *.
  - destruct n; [reflexivity | lia].
  - destruct n as [|n]; simpl.
    + now rewrite substring_zero_all.
    + f_equal. apply IH. lia.
Qed.

Lemma str_from_append (p q : string) : str_from (p ++ q) (slen p) = q.
Proof.
  unfold str_from, slen. rewrite Nat2Z.id, length_append.
  replace (String.length p + String.length q - String.length p)%nat
    with (String.length q) by lia.
  now rewrite substring_skip, substring_zero_all.
Qed.

Lemma str_to_append (p q : string) : str_to (p ++ q) (slen p) = p.
Proof. unfold str_to, slen. rewrite Nat2Z.id. apply substring_take. Qed.

Lemma HasSuffix_ends_with (s suffix : string) :
  HasSuffix s suffix = true <-> ends_with s suffix.
Proof.
  unfold HasSuffix, ends_with, slen. split.
  - intros H. apply andb_true_iff in H as [Hlen Heq].
    apply Z.geb_le in Hlen. apply String.eqb_eq in Heq.
    remember (Z.of_nat (String.length s) - Z.of_nat (String.length suffix)) as n eqn:En.
    exists (str_to s n). rewrite <- Heq. unfold str_to, str_from.
    apply substring_split. lia.
  - intros [p ->]. rewrite length_append. apply andb_true_iff. split.
    + apply Z.geb_le. lia.
    + apply String.eqb_eq.
      replace (Z.of_nat (String.length p + String.length suffix)
               - Z.of_nat (String.length suffix)) with (slen p)
        by (unfold slen; lia).
      apply str_from_append.
Qed.

Lemma LastIndexByte_bounds (s : string) (c : ascii) :
  -1 <= LastIndexByte s c < slen s.
Proof.
  unfold slen. induction s as [|a s IH]; simpl; [lia|].
  destruct (LastIndexByte s c =? -1) eqn:E.
  - destruct (Ascii.eqb a c); lia.
  - apply Z.eqb_neq in E. lia.
Qed.

Lemma LastIndexByte_absent (s : string) (c : ascii) :
  LastIndexByte s c = -1 <-> (forall a b, s <> a ++ String c b).
Proof.
  induction s as [|x s IH]; simpl.
  - split; [|reflexivity]. intros _ [|y a] b; simpl; discriminate.
  - pose proof (LastIndexByte_bounds s c) as Hb.
    destruct (LastIndexByte s c =? -1) eqn:E.
    + apply Z.eqb_eq in E. destruct (Ascii.eqb_spec x c) as [->|Hne].
      * split; [discriminate|]. intros H. exfalso. now apply (H "" s).
      * split; [|reflexivity]. intros _ [|y a] b; simpl; intros Heq.
        -- injection Heq as Hx _. now apply Hne.
        -- injection Heq as _ Hs. apply (proj1 IH E a b Hs).
    + apply Z.eqb_neq in E. split; [lia|].
      intros H. exfalso. apply E, IH. intros a b ->.
      now apply (H (String x a) b).
Qed.

(** ** Hexadecimal *)

Lemma upper_hextable_digit (v : byte) :
  upper_char (table_at hextable (N.shiftr (Byte.to_N v) 4))
    = table_at udigits (Byte.to_N v / 16)
  /\ upper_char (table_at hextable (N.land (Byte.to_N v) 15))
    = table_at udigits (Byte.to_N v mod 16).
Proof. destruct v; vm_compute; split; reflexivity. Qed.

Lemma ToUpper_EncodeToString (src : list byte) :
  ToUpper (EncodeToString src) = upper_hex src.
Proof.
  unfold ToUpper. induction src as [|v rest IH]; [reflexivity|].
  cbn [EncodeToString map_string upper_hex]. rewrite IH.
  destruct (upper_hextable_digit v) as [-> ->]. reflexivity.
Qed.

Lemma hextable_digit_ascii (v : byte) :
  is_ascii_char (table_at hextable (N.shiftr (Byte.to_N v) 4)) = true
  /\ is_ascii_char (table_at hextable (N.land (Byte.to_N v) 15)) = true.
Proof. destruct v; vm_compute; split; reflexivity. Qed.

(** ToUpper is only ever applied to ASCII text. *)
Lemma EncodeToString_ascii (src : list byte) :
  forall_string is_ascii_char (EncodeToString src) = true.
Proof.
  induction src as [|v rest IH]; [reflexivity|].
  cbn [EncodeToString forall_string].
  destruct (hextable_digit_ascii v) as [-> ->]. exact IH.
Qed.

(** ** The weave-key codec *)

Lemma needs_hex_printable (b : byte) : needs_hex b = false <-> printable b.
Proof.
  unfold needs_hex, printable. pose proof (Byte.to_N_bounded b) as Hb.
  rewrite orb_false_iff, N.ltb_ge, N.leb_gt. lia.
Qed.

Lemma encodeID_loop_spec (whole rest : list byte) :
  encodeID_loop whole rest
  = if existsb needs_hex rest then upper_hex whole else string_of_list_byte whole.
Proof.
  induction rest as [|b rest IH]; simpl; [reflexivity|].
  destruct (needs_hex b); simpl; [apply ToUpper_EncodeToString | exact IH].
Qed.

Lemma encodeID_printable (seg : list byte) :
  Forall printable seg -> encodeID seg = string_of_list_byte seg.
Proof.
  intros H. unfold encodeID. rewrite encodeID_loop_spec.
  destruct (existsb needs_hex seg) eqn:E; [|reflexivity].
  apply existsb_exists in E as [b [Hin Hb]].
  rewrite Forall_forall in H. apply H, needs_hex_printable in Hin. congruence.
Qed.

Lemma encodeID_binary (seg : list byte) :
  Exists (fun b => ~ printable b) seg -> encodeID seg = upper_hex seg.
Proof.
  intros H. unfold encodeID. rewrite encodeID_loop_spec.
  destruct (existsb needs_hex seg) eqn:E; [reflexivity|].
  apply Exists_exists in H as [b [Hin Hb]]. exfalso. apply Hb.
  apply needs_hex_printable.
  destruct (needs_hex b) eqn:Eb; [|reflexivity].
  assert (existsb needs_hex seg = true) by (apply existsb_exists; eauto).
  congruence.
Qed.

Lemma zero_byte_not_printable : ~ printable x00.
Proof. unfold printable. simpl. lia. Qed.

Lemma encodeID_with_zero (seg : list byte) :
  In x00 seg -> encodeID seg = upper_hex seg.
Proof.
  intros H. apply encodeID_binary, Exists_exists.
  exists x00. split; [exact H | exact zero_byte_not_printable].
Qed.

Lemma IndexByte_bounds (s : list byte) (c : byte) : -1 <= IndexByte s c < len s.
Proof.
  unfold len. induction s as [|b s IH]; simpl; [lia|].
  destruct (Byte.eqb b c); [lia|].
  destruct (IndexByte s c =? -1) eqn:E; [lia|]. apply Z.eqb_neq in E. lia.
Qed.

Lemma byte_eqb_refl (b : byte) : Byte.eqb b b = true.
Proof. now apply Byte.byte_dec_lb. Qed.

Lemma IndexByte_absent (s : list byte) (c : byte) :
  ~ In c s -> IndexByte s c = -1.
Proof.
  induction s as [|b s IH]; simpl; intros H; [reflexivity|].
  destruct (Byte.eqb b c) eqn:E.
  - apply Byte.byte_dec_bl in E. tauto.
  - rewrite IH by tauto. reflexivity.
Qed.

Lemma IndexByte_first (p i : list byte) (c : byte) :
  ~ In c p -> IndexByte (p ++ c :: i) c = len p.
Proof.
  unfold len. induction p as [|b p IH]; simpl; intros H.
  - now rewrite byte_eqb_refl.
  - destruct (Byte.eqb b c) eqn:E.
    + apply Byte.byte_dec_bl in E. tauto.
    + rewrite IH by tauto.
      destruct (Z.of_nat (List.length p) =? -1) eqn:E'; [apply Z.eqb_eq in E'|]; lia.
Qed.

Lemma Sprintf_pair (a b : string) :
  Sprintf "%s:%s" [AString a; AString b] = a ++ ":" ++ b.
Proof. simpl. now rewrite append_empty_r. Qed.

Lemma parseWeaveKey_no_separator (key : list byte) :
  ~ In ":"%byte key -> parseWeaveKey key = encodeID key.
Proof.
  intros H. unfold parseWeaveKey. now rewrite IndexByte_absent.
Qed.

Lemma parseWeaveKey_split (p i : list byte) :
  ~ In ":"%byte p ->
  parseWeaveKey (p ++ ":"%byte :: i) = encodeID p ++ ":" ++ encodeID i.
Proof.
  intros H. unfold parseWeaveKey. rewrite IndexByte_first by exact H.
  assert ((len p =? -1) = false) as -> by (apply Z.eqb_neq; unfold len; lia).
  rewrite Sprintf_pair. unfold slice_to, slice_from, len.
  rewrite Nat2Z.id.
  replace (Z.to_nat (Z.of_nat (List.length p) + 1)) with (List.length p + 1)%nat by lia.
  rewrite firstn_app, Nat.sub_diag, firstn_all. simpl. rewrite app_nil_r.
  replace (p ++ ":"%byte :: i)%list with ((p ++ [":"%byte]) ++ i)%list
    by (now rewrite <- app_assoc).
  rewrite skipn_app, length_app. simpl.
  rewrite Nat.sub_diag, skipn_all2 by (rewrite length_app; simpl; lia).
  reflexivity.
Qed.

(** C2.  Rendering a weave key is a function of the key bytes alone: equal
    keys render equally; a segment whose bytes all lie in the printable range
    0x20-0x7F is returned as it stands, a segment with a byte outside that
    range is returned as the upper-case hexadecimal of the whole segment; the
    key is cut at its first [:] and the two segments are rendered apart.  The
    key "abc:def" renders as itself, and a segment holding the byte 0x00
    renders in upper-case hexadecimal. *)
Theorem weave_key_rendering :
  (forall k1 k2 : list byte, k1 = k2 -> parseWeaveKey k1 = parseWeaveKey k2)
  /\ (forall seg, Forall printable seg -> encodeID seg = string_of_list_byte seg)
  /\ (forall seg, Exists (fun b => ~ printable b) seg ->
        encodeID seg = upper_hex seg)
  /\ (forall key, ~ In ":"%byte key -> parseWeaveKey key = encodeID key)
  /\ (forall p i, ~ In ":"%byte p ->
        parseWeaveKey (p ++ ":"%byte :: i) = encodeID p ++ ":" ++ encodeID i)
  /\ parseWeaveKey (list_byte_of_string "abc:def") = "abc:def"
  /\ (forall key, ~ In ":"%byte key -> In x00 key ->
        parseWeaveKey key = upper_hex key)
  /\ (forall p i, ~ In ":"%byte p -> In x00 p ->
        parseWeaveKey (p ++ ":"%byte :: i) = upper_hex p ++ ":" ++ encodeID i)
  /\ (forall p i, ~ In ":"%byte p -> In x00 i ->
        parseWeaveKey (p ++ ":"%byte :: i) = encodeID p ++ ":" ++ upper_hex i).
Proof.
  repeat split.
  - now intros k1 k2 ->.
  - exact encodeID_printable.
  - exact encodeID_binary.
  - exact parseWeaveKey_no_separator.
  - exact parseWeaveKey_split.
  - intros key Hsep Hz.
    now rewrite parseWeaveKey_no_separator, encodeID_with_zero.
  - intros p i Hsep Hz.
    now rewrite parseWeaveKey_split, (encodeID_with_zero p).
  - intros p i Hsep Hz.
    now rewrite parseWeaveKey_split, (encodeID_with_zero i).
Qed.

Example render_binary_identifier :
  parseWeaveKey [x61; x3a; x00; xff] = "a:00FF".
Proof. reflexivity. Qed.

(** The upper end of the range: 0x7F (DEL) passes as text. *)
Example render_del : encodeID [x7f] = string_of_list_byte [x7f].
Proof. reflexivity. Qed.

(** C10.  An empty segment is taken as text: the empty key renders as the
    empty string, and a key whose separator is its last byte (the identifier
    is empty) renders as the rendered prefix followed by [:]. *)
Theorem empty_segment_rendering :
  Forall printable []
  /\ encodeID [] = string_of_list_byte []
  /\ encodeID [] = ""
  /\ parseWeaveKey [] = ""
  /\ (forall p, ~ In ":"%byte p ->
        parseWeaveKey (p ++ [":"%byte]) = encodeID p ++ ":").
Proof.
  repeat split; try reflexivity.
  - constructor.
  - intros p H. now rewrite parseWeaveKey_split.
Qed.

(** ** Machine integers *)

Lemma wrap_small (z : Z) : Int64.in_range z -> Int64.wrap z = z.
Proof.
  unfold Int64.in_range, Int64.min_int, Int64.max_int, Int64.wrap. intros H.
  rewrite Z.mod_small; lia.
Qed.

Lemma add_small (x y : Z) :
  0 <= x -> 0 <= y -> x + y <= Int64.max_int -> Int64.add x y = x + y.
Proof.
  intros. apply wrap_small. unfold Int64.in_range, Int64.min_int. lia.
Qed.

Lemma div_small (x y : Z) :
  0 <= x <= Int64.max_int -> 0 < y -> Int64.div x y = Some (x / y).
Proof.
  intros Hx Hy. unfold Int64.div.
  assert ((y =? 0) = false) as -> by (apply Z.eqb_neq; lia).
  rewrite Z.quot_div_nonneg by lia. f_equal. apply wrap_small.
  unfold Int64.in_range, Int64.min_int.
  pose proof (Z.div_pos x y ltac:(lia) Hy).
  pose proof (Z.div_le_upper_bound x y x Hy ltac:(nia)). lia.
Qed.

Lemma rem_small (x y : Z) :
  0 <= x -> 0 < y -> Int64.rem x y = Some (x mod y).
Proof.
  intros Hx Hy. unfold Int64.rem.
  assert ((y =? 0) = false) as -> by (apply Z.eqb_neq; lia).
  now rewrite Z.rem_mod_nonneg by lia.
Qed.

Lemma Max_max (x y : Z) : Max x y = Z.max x y.
Proof. unfold Max. destruct (Z.gtb_spec x y); lia. Qed.

Lemma len_nonneg {A} (l : list A) : 0 <= len l.
Proof. unfold len. lia. Qed.

Lemma len_cons {A} (x : A) (l : list A) : len (x :: l) = len l + 1.
Proof. unfold len. simpl. lia. Qed.

Lemma sum_Z_lengths_nonneg {A} (f : A -> Z) (l : list A) :
  (forall x, 0 <= f x) -> 0 <= sum_Z (map f l).
Proof.
  intros Hf. induction l as [|x l IH]; simpl; [lia|]. specialize (Hf x). lia.
Qed.

(** ** Effects *)

Lemma emit_emit (a b : string) (w : World) : emit b (emit a w) = emit (a ++ b) w.
Proof. unfold emit. simpl. now rewrite append_assoc. Qed.

Lemma emit_empty (w : World) : emit "" w = w.
Proof. destruct w. unfold emit. simpl. now rewrite append_empty_r. Qed.

Lemma Printf_emit (format : string) (a : list arg) (w : World) :
  Printf format a w = (emit (Sprintf format a) w, Done tt).
Proof. reflexivity. Qed.

Lemma bind_ret {A B} (a : A) (k : A -> M B) : bind (ret a) k = k a.
Proof. reflexivity. Qed.

Lemma bind_done {A B} (c : M A) (k : A -> M B) (w w' : World) (a : A) :
  c w = (w', Done a) -> bind c k w = k a w'.
Proof. unfold bind. now intros ->. Qed.

(** ** The statistics traversal *)

Lemma max_from_ge (l : list Z) (m : Z) :
  m <= max_from m l /\ Forall (fun x => x <= max_from m l) l.
Proof.
  unfold max_from. revert m. induction l as [|x l IH]; intros m; simpl.
  - split; [lia | constructor].
  - destruct (IH (Z.max m x)) as [H1 H2]. split; [lia|].
    constructor; [lia | exact H2].
Qed.

Lemma max_from_in (l : list Z) (m : Z) :
  max_from m l = m \/ In (max_from m l) l.
Proof.
  unfold max_from. revert m. induction l as [|x l IH]; intros m; simpl.
  - now left.
  - destruct (IH (Z.max m x)) as [H | H]; [|now right; right].
    rewrite H. destruct (Z.max_spec m x) as [[_ ->] | [_ ->]]; [right; left|left];
      reflexivity.
Qed.

Lemma max_from_zero_is_maximum (l : list Z) :
  l <> [] -> Forall (fun x => 0 <= x) l -> is_maximum (max_from 0 l) l.
Proof.
  intros Hne Hpos. destruct (max_from_ge l 0) as [H0 Hall].
  split; [|exact Hall].
  destruct (max_from_in l 0) as [H | H]; [|exact H].
  destruct l as [|x l]; [congruence|].
  rewrite H in *. inversion Hall; subst. inversion Hpos; subst.
  left. lia.
Qed.

Lemma progress_step (n c : Z) :
  0 <= c -> 0 <= n -> n * 100 <= Int64.max_int -> c * 100 <= Int64.max_int ->
  forall w,
    (if n >=? 100 then
       step <- int64_div n 100 ;;
       r <- int64_rem c step ;;
       if r =? 0 then
         percent <- int64_div (Int64.mul c 100) n ;;
         Printf (lines ["progress:  %d%%"]) [AInt64 percent]
       else ret tt
     else ret tt) w
    = (emit (if progress_due n c then progress_line n c else "") w, Done tt).
Proof.
  intros Hc Hn Hn100 Hc100 w. unfold progress_due.
  destruct (Z.geb_spec n 100) as [Hge | Hlt].
  - assert ((100 <=? n) = true) as -> by (apply Z.leb_le; lia). simpl andb.
    unfold int64_div, int64_rem.
    rewrite div_small by lia.
    assert (0 < n / 100) by (apply Z.div_str_pos; lia).
    unfold bind at 1. unfold ret at 1.
    rewrite rem_small by lia. unfold bind at 1. unfold ret at 1.
    destruct (c mod (n / 100) =? 0).
    + unfold Int64.mul. rewrite wrap_small
        by (unfold Int64.in_range, Int64.min_int; lia).
      rewrite div_small by lia. unfold bind, ret. rewrite Printf_emit.
      f_equal. f_equal. unfold progress_line. cbn.
      now rewrite !append_assoc.
    + unfold ret. now rewrite emit_empty.
  - assert ((100 <=? n) = false) as -> by (apply Z.leb_gt; lia). simpl.
    unfold ret. now rewrite emit_empty.
Qed.

Lemma stats_visit_run (t : MutableTree) (a : stats) (key value : list byte)
    (w : World) :
  Size t * 100 <= Int64.max_int ->
  0 <= count a -> (count a + 1) * 100 <= Int64.max_int ->
  0 <= keySizeTotal a -> keySizeTotal a + len key <= Int64.max_int ->
  0 <= valueSizeTotal a -> valueSizeTotal a + len value <= Int64.max_int ->
  stats_visit t a key value w
  = (emit (traversal_text (Size t) (count a) [(key, value)]) w,
     Done (mkStats (count a + 1) (keySizeTotal a + len key)
             (valueSizeTotal a + len value)
             (Z.max (keyMaxSize a) (len key))
             (Z.max (valueMaxSize a) (len value)), false)).
Proof.
  intros Hn Hc Hc1 Hk Hk1 Hv Hv1. unfold stats_visit.
  pose proof (len_nonneg key). pose proof (len_nonneg value).
  assert (0 <= Size t) by apply len_nonneg.
  assert (Int64.max_int = 9223372036854775807) as Emax by reflexivity.
  rewrite !add_small by lia. rewrite !Max_max.
  unfold bind at 1. rewrite Printf_emit.
  unfold bind at 1. rewrite progress_step by lia.
  unfold ret. rewrite emit_emit. cbn [traversal_text].
  now rewrite append_empty_r.
Qed.

Lemma iterate_stats (t : MutableTree) (es : list (list byte * list byte)) :
  forall (a : stats) (w : World),
    Size t * 100 <= Int64.max_int ->
    0 <= count a -> (count a + len es) * 100 <= Int64.max_int ->
    0 <= keySizeTotal a ->
    keySizeTotal a + sum_Z (map (fun e => len (fst e)) es) <= Int64.max_int ->
    0 <= valueSizeTotal a ->
    valueSizeTotal a + sum_Z (map (fun e => len (snd e)) es) <= Int64.max_int ->
    iterate es (stats_visit t) a w
    = (emit (traversal_text (Size t) (count a) es) w,
       Done (mkStats (count a + len es)
               (keySizeTotal a + sum_Z (map (fun e => len (fst e)) es))
               (valueSizeTotal a + sum_Z (map (fun e => len (snd e)) es))
               (max_from (keyMaxSize a) (map (fun e => len (fst e)) es))
               (max_from (valueMaxSize a) (map (fun e => len (snd e)) es)),
             false)).
Proof.
  induction es as [|[k v] es IH]; intros a w Hn Hc Hc1 Hk Hk1 Hv Hv1.
  - cbn [iterate traversal_text map sum_Z max_from fold_left]. unfold ret.
    rewrite emit_empty. unfold len. simpl. rewrite !Z.add_0_r.
    destruct a; reflexivity.
  - cbn [iterate]. cbn [map sum_Z fst snd] in *. rewrite len_cons in *.
    pose proof (len_nonneg es). pose proof (len_nonneg k).
    pose proof (len_nonneg v).
    pose proof (sum_Z_lengths_nonneg (fun e : list byte * list byte => len (fst e)) es
                  (fun e => len_nonneg (fst e))).
    pose proof (sum_Z_lengths_nonneg (fun e : list byte * list byte => len (snd e)) es
                  (fun e => len_nonneg (snd e))).
    rewrite (bind_done _ _ _ _ _ (stats_visit_run t a k v w Hn Hc
               ltac:(lia) Hk ltac:(lia) Hv ltac:(lia))).
    cbn iota beta. rewrite IH; cbn [count keySizeTotal valueSizeTotal keyMaxSize
                                     valueMaxSize]; try lia.
    rewrite emit_emit. cbn [traversal_text]. rewrite append_empty_r.
    rewrite !append_assoc. unfold max_from. cbn [fold_left].
    rewrite <- !Z.add_assoc, (Z.add_comm 1 (len es)). reflexivity.
Qed.

Lemma sizes_fit_bounds (t : MutableTree) :
  sizes_fit t ->
  Size t * 100 <= Int64.max_int
  /\ (0 + len (entries (loaded t))) * 100 <= Int64.max_int
  /\ 0 + sum_Z (map (fun e => len (fst e)) (entries (loaded t))) <= Int64.max_int
  /\ 0 + sum_Z (map (fun e => len (snd e)) (entries (loaded t))) <= Int64.max_int.
Proof.
  unfold sizes_fit, key_lengths, value_lengths, Size. intros (H1 & H2 & H3).
  repeat split; lia.
Qed.

(** The traversal of the statistics from its initial counters. *)
Lemma Iterate_stats (t : MutableTree) (w : World) :
  sizes_fit t ->
  Iterate t (stats_visit t) (mkStats 0 0 0 0 0) w
  = (emit (traversal_text (Size t) 0 (entries (loaded t))) w,
     Done (mkStats (Size t) (sum_Z (key_lengths t)) (sum_Z (value_lengths t))
             (max_from 0 (key_lengths t)) (max_from 0 (value_lengths t)),
           false)).
Proof.
  intros Hfit. destruct (sizes_fit_bounds t Hfit) as (H1 & H2 & H3 & H4).
  unfold Iterate. rewrite iterate_stats; cbn [count keySizeTotal valueSizeTotal];
    try lia.
  reflexivity.
Qed.

(** The whole report of the statistics over a snapshot that is not empty. *)
Lemma PrintKeysWithValueSize_run (t : MutableTree) (w : World) :
  entries (loaded t) <> [] ->
  sizes_fit t ->
  PrintKeysWithValueSize (Some t) w
  = (emit (header ++ traversal_text (Size t) 0 (entries (loaded t))
           ++ totals_line t
           ++ Sprintf (lines ["avg key size:%d, avg value size:%d"])
                [AInt64 (sum_Z (key_lengths t) / Size t);
                 AInt64 (sum_Z (value_lengths t) / Size t)]
           ++ Sprintf (lines ["max key size:%d, max value size:%d"])
                [AInt64 (max_from 0 (key_lengths t));
                 AInt64 (max_from 0 (value_lengths t))]) w,
     Done tt).
Proof.
  intros Hne Hfit. pose proof Hfit as (H1 & H2 & H3).
  assert (0 < Size t) as Hpos.
  { unfold Size, len. destruct (entries (loaded t)); [congruence | simpl; lia]. }
  pose proof (sum_Z_lengths_nonneg (fun e : list byte * list byte => len (fst e))
                (entries (loaded t)) (fun e => len_nonneg (fst e))) as Hk.
  pose proof (sum_Z_lengths_nonneg (fun e : list byte * list byte => len (snd e))
                (entries (loaded t)) (fun e => len_nonneg (snd e))) as Hv.
  fold (key_lengths t) in Hk. fold (value_lengths t) in Hv.
  unfold PrintKeysWithValueSize, Println.
  unfold bind at 1. unfold write_stdout at 1.
  unfold bind at 1. unfold deref, ret at 1.
  rewrite (bind_done _ _ _ _ _ (Iterate_stats t _ Hfit)).
  cbn iota beta. cbn [count keySizeTotal valueSizeTotal keyMaxSize valueMaxSize].
  unfold bind at 1. rewrite Printf_emit. fold (totals_line t).
  unfold int64_div. rewrite !div_small by lia.
  unfold bind at 1. unfold ret at 1. unfold bind at 1. unfold ret at 1.
  unfold bind. rewrite !Printf_emit. rewrite !emit_emit.
  rewrite <- (emit_emit header). reflexivity.
Qed.

Lemma sizes_fit_compute (t : MutableTree) :
  ((Size t * 100 <=? Int64.max_int)
   && (sum_Z (key_lengths t) <=? Int64.max_int)
   && (sum_Z (value_lengths t) <=? Int64.max_int))%bool = true ->
  sizes_fit t.
Proof.
  intros H. apply andb_true_iff in H as [H H3].
  apply andb_true_iff in H as [H1 H2].
  repeat split; now apply Z.leb_le.
Defined.

(** C3.  Over a snapshot of N > 0 pairs whose counters stay inside [int64],
    the report ends with the line of the averages, which are
    sum(key lengths)/N and sum(value lengths)/N in integer division, and the
    line of the maxima, which are the greatest key length and the greatest
    value length of the snapshot. *)
Theorem statistics_averages_and_maxima (t : MutableTree) (w : World) :
  entries (loaded t) <> [] ->
  sizes_fit t ->
  exists before maxKey maxValue,
    is_maximum maxKey (key_lengths t)
    /\ is_maximum maxValue (value_lengths t)
    /\ PrintKeysWithValueSize (Some t) w
       = (emit (before
                ++ Sprintf (lines ["avg key size:%d, avg value size:%d"])
                     [AInt64 (sum_Z (key_lengths t) / len (entries (loaded t)));
                      AInt64 (sum_Z (value_lengths t) / len (entries (loaded t)))]
                ++ Sprintf (lines ["max key size:%d, max value size:%d"])
                     [AInt64 maxKey; AInt64 maxValue]) w,
          Done tt).
Proof.
  intros Hne Hfit.
  exists (header ++ traversal_text (Size t) 0 (entries (loaded t)) ++ totals_line t),
    (max_from 0 (key_lengths t)), (max_from 0 (value_lengths t)).
  assert (forall f : list byte * list byte -> list byte,
             map (fun e => len (f e)) (entries (loaded t)) <> []) as Hmap
    by (intros f; destruct (entries (loaded t)); [congruence | discriminate]).
  split; [|split].
  - apply max_from_zero_is_maximum; [apply (Hmap fst)|].
    apply Forall_forall. intros x Hx. apply in_map_iff in Hx as [e [<- _]].
    apply len_nonneg.
  - apply max_from_zero_is_maximum; [apply (Hmap snd)|].
    apply Forall_forall. intros x Hx. apply in_map_iff in Hx as [e [<- _]].
    apply len_nonneg.
  - rewrite PrintKeysWithValueSize_run by assumption.
    fold (Size t). now rewrite !append_assoc.
Qed.

Lemma statistics_averages_and_maxima_witness :
  exists before maxKey maxValue,
    is_maximum maxKey (key_lengths (mkTree [] bank_v2))
    /\ is_maximum maxValue (value_lengths (mkTree [] bank_v2))
    /\ PrintKeysWithValueSize (Some (mkTree [] bank_v2)) empty_world
       = (emit (before
                ++ Sprintf (lines ["avg key size:%d, avg value size:%d"])
                     [AInt64 (sum_Z (key_lengths (mkTree [] bank_v2)) / 2);
                      AInt64 (sum_Z (value_lengths (mkTree [] bank_v2)) / 2)]
                ++ Sprintf (lines ["max key size:%d, max value size:%d"])
                     [AInt64 maxKey; AInt64 maxValue]) empty_world,
          Done tt).
Proof.
  apply (statistics_averages_and_maxima (mkTree [] bank_v2) empty_world).
  - discriminate.
  - apply sizes_fit_compute. reflexivity.
Defined.

Example statistics_of_bank_v2 :
  PrintKeysWithValueSize (Some (mkTree [] bank_v2)) empty_world
  = (emit (lines ["Printing all keys with hashed values (to detect diff)";
                  "  a";
                  "    3E23E8160039594A33894F6564E1B1348BBD7A0088D42C4ACB73EEAED59C009D"]
           ++ "%!(EXTRA int=1)"
           ++ lines ["  k:1";
                     "    E3B0C44298FC1C149AFBF4C8996FB92427AE41E4649B934CA495991B7852B855"]
           ++ "%!(EXTRA int=0)"
           ++ lines ["2 keys, keySizeTotal: 4, valueSizeTotal: 1";
                     "avg key size:2, avg value size:0";
                     "max key size:3, max value size:1"]) empty_world,
     Done tt).
Proof. vm_compute. reflexivity. Qed.

(** C1.  On a tree without pairs the report stops in a panic: the totals are
    written, then the first average divides by the count, which is zero. *)
Theorem empty_tree_average_divides_by_zero
    (vs : list (Z * Snapshot)) (hash : list byte) (height : Z) (w : World) :
  PrintKeysWithValueSize (Some (mkTree vs (mkSnapshot [] hash height))) w
  = (emit (lines ["Printing all keys with hashed values (to detect diff)";
                  "0 keys, keySizeTotal: 0, valueSizeTotal: 0"]) w,
     Panic "runtime error: integer divide by zero").
Proof.
  unfold PrintKeysWithValueSize, emit. destruct w as [out err ops].
  cbn. now rewrite append_assoc.
Qed.

(** ** The two visitors *)

Lemma digest_entry_text (key value : list byte) :
  Sprintf (lines ["  %s"; "    %X"])
    [AString (parseWeaveKey key); AByteArray 32 (SHA256.Sum256 value)]
  = digest_entry key value.
Proof. unfold digest_entry. cbn. reflexivity. Qed.

Lemma statistics_entry_text (key value : list byte) :
  Sprintf (lines ["  %s"; "    %X"])
    [AString (parseWeaveKey key); AByteArray 32 (SHA256.Sum256 value);
     AInt (len value)]
  = digest_entry key value ++ "%!(EXTRA int=" ++ fmt_d (len value) ++ ")".
Proof.
  unfold digest_entry. cbn. repeat (rewrite append_assoc; cbn). reflexivity.
Qed.

Lemma PrintKeys_visit_run (key value : list byte) (w : World) :
  PrintKeys_visit tt key value w = (emit (digest_entry key value) w, Done (tt, false)).
Proof.
  unfold PrintKeys_visit, bind. rewrite Printf_emit, digest_entry_text.
  reflexivity.
Qed.

(** C5.  For the pair ("a", "b") the digest traversal writes the rendered key
    and the digest of the value on two lines; the statistics traversal writes
    the same two lines and then the text fmt puts out for an operand that no
    verb of the format takes. *)
Theorem statistics_entry_has_surplus_operand :
  PrintKeys_visit tt (bytes_of "a") (bytes_of "b") empty_world
  = (emit (lines ["  a";
                  "    3E23E8160039594A33894F6564E1B1348BBD7A0088D42C4ACB73EEAED59C009D"])
       empty_world, Done (tt, false))
  /\ stats_visit (mkTree [] bank_v1) (mkStats 0 0 0 0 0)
       (bytes_of "a") (bytes_of "b") empty_world
     = (emit (lines ["  a";
                     "    3E23E8160039594A33894F6564E1B1348BBD7A0088D42C4ACB73EEAED59C009D"]
              ++ "%!(EXTRA int=1)") empty_world,
        Done (mkStats 1 1 1 1 1, false)).
Proof. split; vm_compute; reflexivity. Qed.

(** ** Progress lines *)

Lemma progress_due_small (n c : Z) : n < 100 -> progress_due n c = false.
Proof.
  intros H. unfold progress_due.
  assert ((100 <=? n) = false) as -> by (apply Z.leb_gt; lia). reflexivity.
Qed.

Lemma progress_due_large (n c : Z) :
  100 <= n -> (progress_due n c = true <-> c mod (n / 100) = 0).
Proof.
  intros H. unfold progress_due.
  assert ((100 <=? n) = true) as -> by (apply Z.leb_le; lia).
  simpl. apply Z.eqb_eq.
Qed.

Lemma progress_hundredths (k c : Z) :
  0 < k ->
  (progress_due (100 * k) c = true <-> c mod k = 0)
  /\ c * 100 / (100 * k) = c / k.
Proof.
  intros Hk. split.
  - rewrite progress_due_large by lia.
    now rewrite (Z.mul_comm 100 k), Z.div_mul by lia.
  - rewrite (Z.mul_comm 100 k). apply Z.div_mul_cancel_r; lia.
Qed.

(** C6, as the code has it.  With the counters inside [int64], the
    traversal of the statistics writes, after the pair that brings the running
    count to [c], a progress line showing c*100/N exactly when N >= 100 and
    [c] is a multiple of N/100 (integer division): never for a snapshot of
    fewer than 100 pairs, and for N = 100*k after every k-th pair, showing
    c/k percent. *)
Theorem progress_lines_of_traversal (t : MutableTree) (w : World) :
  sizes_fit t ->
  (exists a,
      Iterate t (stats_visit t) (mkStats 0 0 0 0 0) w
      = (emit (traversal_text (Size t) 0 (entries (loaded t))) w, Done (a, false)))
  /\ (Size t < 100 -> forall c, progress_due (Size t) c = false)
  /\ (100 <= Size t ->
      forall c, progress_due (Size t) c = true <-> c mod (Size t / 100) = 0)
  /\ (forall k, 0 < k -> Size t = 100 * k ->
      forall c, (progress_due (Size t) c = true <-> c mod k = 0)
                /\ c * 100 / Size t = c / k).
Proof.
  intros Hfit. split; [|split; [|split]].
  - eexists. now apply Iterate_stats.
  - intros H c. now apply progress_due_small.
  - intros H c. now apply progress_due_large.
  - intros k Hk -> c. now apply progress_hundredths.
Qed.

Lemma progress_lines_of_traversal_witness :
  (exists a,
      Iterate (mkTree [] wide_snapshot) (stats_visit (mkTree [] wide_snapshot))
        (mkStats 0 0 0 0 0) empty_world
      = (emit (traversal_text 200 0 (entries wide_snapshot)) empty_world,
         Done (a, false)))
  /\ (200 < 100 -> forall c, progress_due 200 c = false)
  /\ (100 <= 200 -> forall c, progress_due 200 c = true <-> c mod (200 / 100) = 0)
  /\ (forall k, 0 < k -> 200 = 100 * k ->
      forall c, (progress_due 200 c = true <-> c mod k = 0)
                /\ c * 100 / 200 = c / k).
Proof.
  apply (progress_lines_of_traversal (mkTree [] wide_snapshot) empty_world).
  apply sizes_fit_compute. reflexivity.
Defined.

(** Two hundred pairs: nothing after the first, 1% after the second. *)
Example progress_of_two_hundred :
  traversal_text 200 0 (firstn 2 (entries wide_snapshot))
  = lines ["  00";
           "    E3B0C44298FC1C149AFBF4C8996FB92427AE41E4649B934CA495991B7852B855"]
    ++ "%!(EXTRA int=0)"
    ++ lines ["  01";
              "    E3B0C44298FC1C149AFBF4C8996FB92427AE41E4649B934CA495991B7852B855"]
    ++ "%!(EXTRA int=0)"
    ++ lines ["progress:  1%"].
Proof. vm_compute. reflexivity. Qed.

(** One hundred and fifty pairs: a line after every pair, 0% the first. *)
Example progress_of_one_hundred_fifty :
  progress_due 150 1 = true /\ progress_line 150 1 = lines ["progress:  0%"]
  /\ progress_due 150 2 = true /\ progress_line 150 2 = lines ["progress:  1%"]
  /\ progress_due 150 3 = true /\ progress_line 150 3 = lines ["progress:  2%"].
Proof. vm_compute. repeat split. Qed.

(** C6, as the claim has it, fails on a snapshot of one pair: the pair is
    the whole of the snapshot, and the report has no progress line. *)
Lemma statistics_of_one_pair_has_no_progress_line :
  PrintKeysWithValueSize (Some (mkTree [] bank_v1)) empty_world
  = (emit (lines ["Printing all keys with hashed values (to detect diff)";
                  "  a";
                  "    3E23E8160039594A33894F6564E1B1348BBD7A0088D42C4ACB73EEAED59C009D"]
           ++ "%!(EXTRA int=1)"
           ++ lines ["1 keys, keySizeTotal: 1, valueSizeTotal: 1";
                     "avg key size:1, avg value size:1";
                     "max key size:1, max value size:1"]) empty_world,
     Done tt).
Proof. vm_compute. reflexivity. Qed.

(** ** Opening the store *)

Lemma last_char_append (p s : string) :
  s <> "" -> last_char (p ++ s) = last_char s.
Proof.
  intros Hs. induction p as [|c p IH]; simpl; [reflexivity|].
  rewrite IH. destruct s as [|d s]; [congruence|]. simpl.
  destruct (last_char s); reflexivity.
Qed.

Lemma suffixes_exclusive (p q : string) : p ++ ".db" <> q ++ ".db/".
Proof.
  intros H. apply (f_equal last_char) in H.
  rewrite !last_char_append in H by discriminate. discriminate.
Qed.

Lemma not_ends_with (s suffix : string) :
  HasSuffix s suffix = false -> ~ ends_with s suffix.
Proof.
  intros H E. apply HasSuffix_ends_with in E. congruence.
Qed.

Lemma trim_suffix (stem suffix : string) :
  str_to (stem ++ suffix) (slen (stem ++ suffix) - slen suffix) = stem.
Proof.
  replace (slen (stem ++ suffix) - slen suffix) with (slen stem)
    by (unfold slen; rewrite length_append; lia).
  apply str_to_append.
Qed.

Section Opening.

Context {X : External}.

Lemma OpenDB_without_suffix (dir : string) (w : World) :
  ~ ends_with dir ".db" -> ~ ends_with dir ".db/" ->
  OpenDB dir w = (w, Done (inr "database directory must end with .db")).
Proof.
  intros H1 H2. unfold OpenDB.
  destruct (HasSuffix dir ".db") eqn:E1;
    [exfalso; now apply H1, HasSuffix_ends_with|].
  destruct (HasSuffix dir ".db/") eqn:E2;
    [exfalso; now apply H2, HasSuffix_ends_with|].
  reflexivity.
Qed.

Lemma OpenDB_without_parent (dir stem : string) (w : World) :
  dir = stem ++ ".db" \/ dir = stem ++ ".db/" ->
  (forall parent name, stem <> parent ++ "/" ++ name) ->
  OpenDB dir w = (w, Done (inr (Sprintf "cannot cut paths on %s" [AString stem]))).
Proof.
  intros Hdir Hcut. apply LastIndexByte_absent in Hcut. unfold OpenDB.
  destruct Hdir as [-> | ->].
  - assert (HasSuffix (stem ++ ".db") ".db" = true) as ->
      by (apply HasSuffix_ends_with; now exists stem).
    change 3 with (slen ".db"). rewrite trim_suffix, Hcut. reflexivity.
  - assert (HasSuffix (stem ++ ".db/") ".db" = false) as ->.
    { destruct (HasSuffix (stem ++ ".db/") ".db") eqn:E; [|reflexivity].
      apply HasSuffix_ends_with in E as [p E]. symmetry in E.
      now apply suffixes_exclusive in E. }
    assert (HasSuffix (stem ++ ".db/") ".db/" = true) as ->
      by (apply HasSuffix_ends_with; now exists stem).
    change 4 with (slen ".db/"). rewrite trim_suffix, Hcut. reflexivity.
Qed.

(** C9.  A path that ends neither in [.db] nor in [.db/], and a path whose
    part before that suffix has no [/] to split a parent directory from a
    database name at, makes OpenDB return an error; the world it returns is
    the world it started from, so NewRocksDB has not been called. *)
Theorem OpenDB_rejects_bad_path (dir : string) (w : World) :
  (~ ends_with dir ".db" /\ ~ ends_with dir ".db/")
  \/ (exists stem, (dir = stem ++ ".db" \/ dir = stem ++ ".db/")
                   /\ forall parent name, stem <> parent ++ "/" ++ name) ->
  exists err, OpenDB dir w = (w, Done (inr err)).
Proof.
  intros [[H1 H2] | [stem [Hdir Hcut]]].
  - eexists. now apply OpenDB_without_suffix.
  - eexists. now apply (OpenDB_without_parent dir stem).
Qed.

End Opening.

Lemma OpenDB_rejects_bad_path_witness :
  exists err, OpenDB (X := fixture) "/data/application" empty_world
              = (empty_world, Done (inr err)).
Proof.
  apply (OpenDB_rejects_bad_path (X := fixture) "/data/application" empty_world).
  left. split; apply not_ends_with; reflexivity.
Defined.

Example OpenDB_without_directory :
  OpenDB (X := fixture) "application.db/" empty_world
  = (empty_world, Done (inr "cannot cut paths on application")).
Proof. reflexivity. Qed.

Example OpenDB_asks_for_a_handle :
  OpenDB (X := fixture) "/data/application.db" empty_world
  = (mkWorld "" "" [("application", "/data")], Done (inl [])).
Proof. reflexivity. Qed.

(** ** Loading a version *)

Lemma lookup_version_in (v : Z) (vs : list (Z * Snapshot)) :
  In v (map fst vs) <-> exists s, lookup_version v vs = Some s.
Proof.
  induction vs as [|[v' s'] vs IH]; simpl.
  - split; [tauto | intros [s H]; discriminate].
  - destruct (Z.eqb_spec v' v) as [-> | Hne].
    + split; [intros _; now exists s' | now left].
    + rewrite <- IH. split; [intros [H | H]; [congruence | exact H] | now right].
Qed.

Lemma latest_version_greatest (vs : list (Z * Snapshot)) (v : Z) :
  latest_version vs = Some v ->
  In v (map fst vs) /\ Forall (fun v' => v' <= v) (map fst vs).
Proof.
  revert v. induction vs as [|[v' s'] vs IH]; simpl; intros v H; [discriminate|].
  destruct (latest_version vs) as [m|] eqn:E.
  - injection H as <-. destruct (IH m eq_refl) as [Hin Hall]. split.
    + destruct (Z.max_spec v' m) as [[_ ->] | [_ ->]]; [now right | now left].
    + constructor; [lia|]. eapply Forall_impl; [|exact Hall].
      simpl. intros; lia.
  - injection H as <-. destruct vs as [|[v2 s2] vs].
    + split; [now left | repeat constructor; lia].
    + simpl in E. destruct (latest_version vs); discriminate.
Qed.

Lemma LoadVersion_latest (t : MutableTree) (v : Z) :
  latest_version (versions t) = Some v ->
  exists snap,
    lookup_version v (versions t) = Some snap
    /\ LoadVersion t 0 = (mkTree (versions t) snap, (v, None))
    /\ LoadVersion t v = LoadVersion t 0.
Proof.
  intros H. destruct (latest_version_greatest _ _ H) as [Hin _].
  apply lookup_version_in in Hin as [snap Hs]. exists snap.
  unfold LoadVersion. simpl. rewrite H, Hs.
  destruct (v =? 0); rewrite ?H, Hs; auto.
Qed.

Lemma LoadVersion_missing (t : MutableTree) (v : Z) :
  v <> 0 -> ~ In v (AvailableVersions t) ->
  exists err, LoadVersion t v = (t, (0, Some err)).
Proof.
  intros Hv Hin. unfold LoadVersion.
  assert ((v =? 0) = false) as -> by now apply Z.eqb_neq.
  destruct (lookup_version v (versions t)) as [s|] eqn:E.
  - exfalso. apply Hin. apply lookup_version_in. now exists s.
  - now eexists.
Qed.

Section Loading.

Context {X : External}.

Lemma ReadTree_opened (dir : string) (version : Z) (prefix : list byte)
    (w w1 : World) (db : DB) (t0 : MutableTree) :
  OpenDB dir w = (w1, Done (inl db)) ->
  NewMutableTree (if negb (len prefix =? 0) then NewPrefixDB db prefix else db)
    DefaultCacheSize = inl t0 ->
  ReadTree dir version prefix w
  = (let '(tree, (ver, err)) := LoadVersion t0 version in
     (emit (Sprintf (lines ["Got version: %d"]) [AInt64 ver]) w1,
      Done (Some tree, err))).
Proof.
  intros Hopen Htree. unfold ReadTree.
  rewrite (bind_done _ _ _ _ _ Hopen). cbn iota beta. rewrite Htree.
  destruct (LoadVersion t0 version) as [tree [ver err]].
  unfold bind. rewrite Printf_emit. reflexivity.
Qed.

(** C7.  Over a store that opens, with the tree engine as the spec describes
    it: asked for version 0, ReadTree reports the greatest version committed
    and returns that version's snapshot, the very result of asking for that
    version by its number; asked for a number other than 0 that was never
    committed, it returns an error. *)
Theorem ReadTree_latest_and_missing (dir : string) (prefix : list byte)
    (w w1 : World) (db : DB) (t0 : MutableTree) :
  OpenDB dir w = (w1, Done (inl db)) ->
  NewMutableTree (if negb (len prefix =? 0) then NewPrefixDB db prefix else db)
    DefaultCacheSize = inl t0 ->
  (forall v, latest_version (versions t0) = Some v ->
     In v (AvailableVersions t0)
     /\ Forall (fun v' => v' <= v) (AvailableVersions t0)
     /\ exists snap,
          lookup_version v (versions t0) = Some snap
          /\ ReadTree dir 0 prefix w
             = (emit (Sprintf (lines ["Got version: %d"]) [AInt64 v]) w1,
                Done (Some (mkTree (versions t0) snap), None))
          /\ ReadTree dir v prefix w = ReadTree dir 0 prefix w)
  /\ (forall version, version <> 0 -> ~ In version (AvailableVersions t0) ->
      exists w2 tree err,
        ReadTree dir version prefix w = (w2, Done (tree, Some err))).
Proof.
  intros Hopen Htree. split.
  - intros v Hv. destruct (latest_version_greatest _ _ Hv) as [Hin Hall].
    split; [exact Hin | split; [exact Hall|]].
    destruct (LoadVersion_latest t0 v Hv) as (snap & Hs & H0 & Hsame).
    exists snap. split; [exact Hs|].
    rewrite !(ReadTree_opened dir _ prefix w w1 db t0 Hopen Htree).
    rewrite Hsame, H0. split; reflexivity.
  - intros version Hne Hin.
    destruct (LoadVersion_missing t0 version Hne Hin) as [err Herr].
    rewrite (ReadTree_opened dir _ prefix w w1 db t0 Hopen Htree), Herr.
    now eexists _, _, _.
Qed.

End Loading.

Lemma ReadTree_latest_and_missing_witness :
  (forall v, latest_version (versions bank_tree) = Some v ->
     In v (AvailableVersions bank_tree)
     /\ Forall (fun v' => v' <= v) (AvailableVersions bank_tree)
     /\ exists snap,
          lookup_version v (versions bank_tree) = Some snap
          /\ ReadTree (X := fixture) "/data/application.db" 0
               (bytes_of "s/k:bank/") empty_world
             = (emit (Sprintf (lines ["Got version: %d"]) [AInt64 v])
                  (mkWorld "" "" [("application", "/data")]),
                Done (Some (mkTree (versions bank_tree) snap), None))
          /\ ReadTree (X := fixture) "/data/application.db" v
               (bytes_of "s/k:bank/") empty_world
             = ReadTree (X := fixture) "/data/application.db" 0
                 (bytes_of "s/k:bank/") empty_world)
  /\ (forall version, version <> 0 -> ~ In version (AvailableVersions bank_tree) ->
      exists w2 tree err,
        ReadTree (X := fixture) "/data/application.db" version
          (bytes_of "s/k:bank/") empty_world
        = (w2, Done (tree, Some err))).
Proof.
  apply (ReadTree_latest_and_missing (X := fixture) "/data/application.db"
           (bytes_of "s/k:bank/") empty_world
           (mkWorld "" "" [("application", "/data")]) [] bank_tree).
  - reflexivity.
  - reflexivity.
Defined.

Example ReadTree_bank_latest :
  ReadTree (X := fixture) "/data/application.db" 0 (bytes_of "s/k:bank/") empty_world
  = (mkWorld (lines ["Got version: 2"]) "" [("application", "/data")],
     Done (Some (mkTree (versions bank_tree) bank_v2), None)).
Proof. reflexivity. Qed.

Example ReadTree_bank_version_3 :
  ReadTree (X := fixture) "/data/application.db" 3 (bytes_of "s/k:bank/") empty_world
  = (mkWorld (lines ["Got version: 0"]) "" [("application", "/data")],
     Done (Some bank_tree, Some "version 3 does not exist")).
Proof. reflexivity. Qed.

(** ** The statistics over the catalog *)

Lemma module_prefix (m : string) : Sprintf "s/k:%s/" [AString m] = "s/k:" ++ m ++ "/".
Proof. reflexivity. Qed.

Section Catalog.

Context {X : External}.

Lemma PrintStatistics_body_failed (catalog : list string) (dbpath : string)
    (version idx : Z) (m : string) (w w1 : World)
    (tree : option MutableTree) (err : error) :
  ReadTree dbpath version (list_byte_of_string ("s/k:" ++ m ++ "/")) w
    = (w1, Done (tree, Some err)) ->
  PrintStatistics_body catalog dbpath version idx m w
  = (emit_err (Sprintf (lines ["Error reading %s data: %s"])
                 [AString m; AString err]) w1, Done tt).
Proof.
  intros H. unfold PrintStatistics_body. rewrite module_prefix.
  rewrite (bind_done _ _ _ _ _ H). reflexivity.
Qed.

Lemma loop_after_failed_module (catalog : list string) (dbpath : string)
    (version idx : Z) (m : string) (rest : list string) (w w1 : World)
    (tree : option MutableTree) (err : error) :
  ReadTree dbpath version (list_byte_of_string ("s/k:" ++ m ++ "/")) w
    = (w1, Done (tree, Some err)) ->
  for_range_from idx (m :: rest) (PrintStatistics_body catalog dbpath version) w
  = for_range_from (idx + 1) rest (PrintStatistics_body catalog dbpath version)
      (emit_err (Sprintf (lines ["Error reading %s data: %s"])
                   [AString m; AString err]) w1).
Proof.
  intros H. cbn [for_range_from].
  now rewrite (bind_done _ _ _ _ _
                 (PrintStatistics_body_failed catalog dbpath version idx m w w1
                    tree err H)).
Qed.

(** C8.  PrintStatistics runs the body of its loop over the catalog in
    order.  The body asks ReadTree for the prefix [s/k:<module>/]; when
    ReadTree returns an error, the body writes the error with the name of the
    module to standard error and ends normally, and the loop goes on with the
    next module. *)
Theorem PrintStatistics_skips_failed_module (catalog : list string)
    (dbpath : string) (version idx : Z) (m : string) (rest : list string)
    (w w1 : World) (tree : option MutableTree) (err : error) :
  ReadTree dbpath version (list_byte_of_string ("s/k:" ++ m ++ "/")) w
    = (w1, Done (tree, Some err)) ->
  Sprintf "s/k:%s/" [AString m] = "s/k:" ++ m ++ "/"
  /\ PrintStatistics_body catalog dbpath version idx m w
     = (emit_err (Sprintf (lines ["Error reading %s data: %s"])
                    [AString m; AString err]) w1, Done tt)
  /\ for_range_from idx (m :: rest) (PrintStatistics_body catalog dbpath version) w
     = for_range_from (idx + 1) rest (PrintStatistics_body catalog dbpath version)
         (emit_err (Sprintf (lines ["Error reading %s data: %s"])
                      [AString m; AString err]) w1)
  /\ PrintStatistics dbpath version
     = for_range_from 0 modules (PrintStatistics_body modules dbpath version).
Proof.
  intros H. split; [apply module_prefix | split; [|split]].
  - now apply PrintStatistics_body_failed with (tree := tree).
  - now apply loop_after_failed_module with (tree := tree).
  - reflexivity.
Qed.

(** When no module of the catalog can be read, the run still ends normally. *)
Lemma PrintStatistics_all_failed (catalog ms : list string) (dbpath : string)
    (version : Z) :
  (forall m w, In m ms ->
     exists w1 tree err,
       ReadTree dbpath version (list_byte_of_string ("s/k:" ++ m ++ "/")) w
       = (w1, Done (tree, Some err))) ->
  forall idx w, exists w',
    for_range_from idx ms (PrintStatistics_body catalog dbpath version) w
    = (w', Done tt).
Proof.
  induction ms as [|m ms IH]; intros Hfail idx w.
  - now exists w.
  - destruct (Hfail m w (or_introl eq_refl)) as (w1 & tree & err & H).
    rewrite (loop_after_failed_module catalog dbpath version idx m ms
               w w1 tree err H).
    apply IH. intros m' w' Hin. apply Hfail. now right.
Qed.

End Catalog.

Lemma PrintStatistics_skips_failed_module_witness :
  Sprintf "s/k:%s/" [AString "capability"] = "s/k:" ++ "capability" ++ "/"
  /\ PrintStatistics_body (X := fixture) modules "/data/application.db" 1 0
       "capability" empty_world
     = (emit_err (Sprintf (lines ["Error reading %s data: %s"])
                    [AString "capability"; AString "version 1 does not exist"])
          (mkWorld (lines ["Got version: 0"]) "" [("application", "/data")]),
        Done tt)
  /\ for_range_from 0 ("capability" :: tl modules)
       (PrintStatistics_body (X := fixture) modules "/data/application.db" 1)
       empty_world
     = for_range_from (0 + 1) (tl modules)
         (PrintStatistics_body (X := fixture) modules "/data/application.db" 1)
         (emit_err (Sprintf (lines ["Error reading %s data: %s"])
                      [AString "capability"; AString "version 1 does not exist"])
            (mkWorld (lines ["Got version: 0"]) "" [("application", "/data")]))
  /\ PrintStatistics (X := fixture) "/data/application.db" 1
     = for_range_from 0 modules
         (PrintStatistics_body (X := fixture) modules "/data/application.db" 1).
Proof.
  apply (PrintStatistics_skips_failed_module (X := fixture) modules
           "/data/application.db" 1 0 "capability" (tl modules) empty_world
           (mkWorld (lines ["Got version: 0"]) "" [("application", "/data")])
           (Some (mkTree [] empty_snapshot)) "version 1 does not exist").
  reflexivity.
Defined.

(** A database that cannot be opened: nineteen errors, and a normal end. *)
Example PrintStatistics_without_database :
  PrintStatistics (X := fixture) "/tmp/missing.db" 0 empty_world
  = (mkWorld ""
       (lines (map (fun m => "Error reading " ++ m ++ " data: no such database")
                 modules))
       (repeat ("missing", "/tmp") 19),
     Done tt).
Proof. vm_compute. reflexivity. Qed.

(** A module that loads and is empty ends the run: its report panics. *)
Example PrintStatistics_with_empty_module :
  snd (PrintStatistics (X := fixture) "/data/application.db" 1 empty_world)
  = Panic "runtime error: integer divide by zero".
Proof. vm_compute. reflexivity. Qed.

(** ** The command line *)

Section CommandLine.

Context {X : External}.

Lemma usage_exit (w : World) :
  (for_range usage (fun _ line => Fprintln_stderr [AString line]) ;;
   os_Exit 1 : M unit) w
  = (emit_err (lines usage) w, Exit 1).
Proof.
  destruct w as [out err ops]. unfold emit_err. cbn.
  now rewrite !append_assoc.
Qed.

(** Fewer than three arguments: the usage text, status 1. *)
Lemma main_too_few_arguments (args : list string) (w : World) :
  len args < 3 -> main args w = (emit_err (lines usage) w, Exit 1).
Proof.
  intros H. unfold main.
  assert ((len args <? 3) = true) as -> by now apply Z.ltb_lt.
  unfold bind at 1. unfold ret at 1. unfold bind at 1.
  now rewrite usage_exit.
Qed.

(** An unknown command: the usage text, status 1. *)
Lemma main_unknown_command (a0 : string) (rest : list string) (w : World) :
  string_in a0 commands = false ->
  main (a0 :: rest) w = (emit_err (lines usage) w, Exit 1).
Proof.
  intros H. destruct (Z.ltb_spec (len (a0 :: rest)) 3) as [Hlt | Hge];
    [now apply main_too_few_arguments|].
  unfold main.
  assert ((len (a0 :: rest) <? 3) = false) as -> by now apply Z.ltb_ge.
  unfold index. cbn [Z.ltb Z.compare Z.to_nat nth_error].
  unfold bind at 2. unfold ret at 1. rewrite H. cbn [negb].
  unfold bind at 1. unfold ret at 1. unfold bind at 1.
  now rewrite usage_exit.
Qed.

(** A version that strconv.Atoi refuses: its error, status 1. *)
Lemma main_invalid_version (a0 a1 a2 a3 : string) (rest : list string)
    (err : error) (w : World) :
  string_in a0 commands = true ->
  Atoi a3 = inr err ->
  main (a0 :: a1 :: a2 :: a3 :: rest) w
  = (emit_err (Sprintf (lines ["Invalid version number: %s"]) [AString err]) w,
     Exit 1).
Proof.
  intros Hcmd Hver. unfold main.
  assert (3 < len (a0 :: a1 :: a2 :: a3 :: rest)) as Hlen
    by (rewrite !len_cons; pose proof (len_nonneg rest); lia).
  assert ((len (a0 :: a1 :: a2 :: a3 :: rest) <? 3) = false) as ->
    by (apply Z.ltb_ge; lia).
  assert ((len (a0 :: a1 :: a2 :: a3 :: rest) >=? 4) = true) as ->
    by (apply Z.geb_le; lia).
  change (index (a0 :: a1 :: a2 :: a3 :: rest) 0) with (ret a0).
  change (index (a0 :: a1 :: a2 :: a3 :: rest) 3) with (ret a3).
  rewrite !bind_ret, Hcmd. cbn [negb]. rewrite !bind_ret, Hver.
  reflexivity.
Qed.

(** [balance] and [nonce] with three or four arguments, once the tree is
    read: [args[4]] is outside the slice. *)
Lemma main_without_address (a0 a1 a2 : string) (optional : list string)
    (version : Z) (tree : option MutableTree) (w w1 : World) :
  a0 = "balance" \/ a0 = "nonce" ->
  (optional = [] /\ version = 0
   \/ exists a3, optional = [a3] /\ Atoi a3 = inl version) ->
  ReadTree a1 version (list_byte_of_string a2) w = (w1, Done (tree, None)) ->
  main (a0 :: a1 :: a2 :: optional) w
  = (w1, Panic (Sprintf "runtime error: index out of range [%d] with length %d"
                  [AInt 4; AInt (len (a0 :: a1 :: a2 :: optional))])).
Proof.
  intros Hcmd Hopt Hread.
  destruct Hopt as [[-> ->] | (a3 & -> & Hver)].
  - destruct Hcmd as [-> | ->]; unfold main;
      change (index ?l 4) with
        (@panic string
           (Sprintf "runtime error: index out of range [%d] with length %d"
              [AInt 4; AInt (len l)]));
      change (index ?l 1) with (ret a1); change (index ?l 2) with (ret a2);
      cbn -[Sprintf ReadTree]; unfold bind, ret; cbn -[Sprintf ReadTree];
      rewrite Hread; reflexivity.
  - destruct Hcmd as [-> | ->]; unfold main;
      change (index ?l 4) with
        (@panic string
           (Sprintf "runtime error: index out of range [%d] with length %d"
              [AInt 4; AInt (len l)]));
      change (index ?l 1) with (ret a1); change (index ?l 2) with (ret a2);
      change (index ?l 3) with (ret a3);
      cbn -[Sprintf ReadTree Atoi]; unfold bind, ret; cbn -[Sprintf ReadTree Atoi];
      rewrite Hver; cbn -[Sprintf ReadTree Atoi]; rewrite Hread; reflexivity.
Qed.

End CommandLine.

Example Atoi_not_a_number :
  Atoi (X := fixture) "latest"
  = inr ("strconv.Atoi: parsing " ++ dquote ++ "latest" ++ dquote ++ ": invalid syntax").
Proof. reflexivity. Qed.

Example main_with_two_arguments :
  snd (main (X := fixture) ["data"; "/data/application.db"] empty_world) = Exit 1.
Proof. reflexivity. Qed.

(** C4.  [balance] with a version and no address, and [nonce] with neither,
    over a database that opens: the tree is read, then indexing [args[4]]
    panics, and the process ends with status 2 without a usage text. *)
Theorem main_without_address_panics :
  main (X := fixture) ["balance"; "/data/application.db"; "s/k:bank/"; "0"]
    empty_world
  = (mkWorld (lines ["Got version: 2"]) "" [("application", "/data")],
     Panic "runtime error: index out of range [4] with length 4")
  /\ main (X := fixture) ["nonce"; "/data/application.db"; "s/k:bank/"]
       empty_world
     = (mkWorld (lines ["Got version: 2"]) "" [("application", "/data")],
        Panic "runtime error: index out of range [4] with length 3")
  /\ exit_status
       (snd (main (X := fixture)
               ["balance"; "/data/application.db"; "s/k:bank/"; "0"] empty_world))
     = 2.
Proof. repeat split; vm_compute; reflexivity. Qed.

(** * Further properties of the program *)

(** ** Rendered keys *)


Lemma string_mem_append (c : ascii) (a b : string) :
  string_mem c (a ++ b) = string_mem c a || string_mem c b.
Proof.
  induction a as [|x a IH]; simpl; [reflexivity|].
  now rewrite IH, orb_assoc.
Qed.

Lemma list_byte_of_string_append (a b : string) :
  list_byte_of_string (a ++ b)
  = (list_byte_of_string a ++ list_byte_of_string b)%list.
Proof.
  unfold list_byte_of_string.
  induction a as [|c a IH]; simpl; [reflexivity | now rewrite IH].
Qed.

Lemma byte_text_class (b : byte) :
  printable_char (ascii_of_byte b) = negb (needs_hex b)
  /\ Ascii.eqb (ascii_of_byte b) ":" = Byte.eqb b ":"%byte.
Proof. destruct b; vm_compute; split; reflexivity. Qed.

Lemma upper_hex_digits_class (v : byte) :
  let hi := table_at udigits (Byte.to_N v / 16) in
  let lo := table_at udigits (Byte.to_N v mod 16) in
  printable_char hi = true /\ printable_char lo = true
  /\ Ascii.eqb hi ":" = false /\ Ascii.eqb lo ":" = false
  /\ fromHexChar hi = Some (Byte.to_N v / 16)%N
  /\ fromHexChar lo = Some (Byte.to_N v mod 16)%N
  /\ SHA256.byte_of ((Byte.to_N v / 16) * 16 + Byte.to_N v mod 16) = v.
Proof. destruct v; vm_compute; repeat split; reflexivity. Qed.

Lemma upper_hex_printable (seg : list byte) :
  forall_string printable_char (upper_hex seg) = true
  /\ string_mem ":" (upper_hex seg) = false.
Proof.
  induction seg as [|v seg [IH1 IH2]]; [split; reflexivity|].
  destruct (upper_hex_digits_class v) as (H1 & H2 & H3 & H4 & _).
  cbn [upper_hex forall_string string_mem]. cbv zeta in H1, H2, H3, H4.
  rewrite H1, H2, H3, H4, IH1, IH2. split; reflexivity.
Qed.

Lemma text_printable (seg : list byte) :
  forall_string printable_char (string_of_list_byte seg)
  = negb (existsb needs_hex seg).
Proof.
  unfold string_of_list_byte.
  induction seg as [|b seg IH]; [reflexivity|].
  cbn [map string_of_list_ascii forall_string existsb].
  rewrite IH, (proj1 (byte_text_class b)), negb_orb. reflexivity.
Qed.

Lemma text_separator (seg : list byte) :
  string_mem ":" (string_of_list_byte seg) = existsb (fun b => Byte.eqb b ":"%byte) seg.
Proof.
  unfold string_of_list_byte.
  induction seg as [|b seg IH]; [reflexivity|].
  cbn [map string_of_list_ascii string_mem existsb].
  now rewrite IH, (proj2 (byte_text_class b)).
Qed.

Lemma separator_in (seg : list byte) :
  existsb (fun b => Byte.eqb b ":"%byte) seg = true <-> In ":"%byte seg.
Proof.
  rewrite existsb_exists. split.
  - intros [b [Hin Hb]]. apply Byte.byte_dec_bl in Hb. now subst.
  - intros H. exists ":"%byte. split; [exact H | reflexivity].
Qed.

Lemma encodeID_cases (seg : list byte) :
  encodeID seg
  = if existsb needs_hex seg then upper_hex seg else string_of_list_byte seg.
Proof. unfold encodeID. apply encodeID_loop_spec. Qed.

Lemma encodeID_output_printable (seg : list byte) :
  forall_string printable_char (encodeID seg) = true.
Proof.
  rewrite encodeID_cases. destruct (existsb needs_hex seg) eqn:E.
  - apply upper_hex_printable.
  - now rewrite text_printable, E.
Qed.

Lemma encodeID_output_separator (seg : list byte) :
  string_mem ":" (encodeID seg) = true -> In ":"%byte seg.
Proof.
  rewrite encodeID_cases. destruct (existsb needs_hex seg).
  - now rewrite (proj2 (upper_hex_printable seg)).
  - rewrite text_separator. apply separator_in.
Qed.

Lemma IndexByte_found (s : list byte) (c : byte) :
  IndexByte s c <> -1 ->
  exists p i, s = (p ++ c :: i)%list /\ ~ In c p.
Proof.
  induction s as [|b s IH]; simpl; intros H; [congruence|].
  destruct (Byte.eqb b c) eqn:E.
  - apply Byte.byte_dec_bl in E. subst. now exists [], s.
  - destruct (IndexByte s c =? -1) eqn:E'; [congruence|].
    apply Z.eqb_neq in E'. destruct (IH E') as (p & i & -> & Hp).
    exists (b :: p), i. split; [reflexivity|].
    intros [-> | Hin]; [|tauto]. now rewrite byte_eqb_refl in E.
Qed.

(** A key either has no separator or splits at its first one. *)
Lemma key_shape (key : list byte) :
  ~ In ":"%byte key
  \/ exists p i, key = (p ++ ":"%byte :: i)%list /\ ~ In ":"%byte p.
Proof.
  destruct (Z.eq_dec (IndexByte key ":"%byte) (-1)) as [E | E].
  - left. intros Hin. apply in_split in Hin as (a & b & ->).
    clear -E. induction a as [|x a IH]; simpl in E.
    + discriminate.
    + destruct (Byte.eqb x ":"%byte); [discriminate|].
      destruct (IndexByte (a ++ ":"%byte :: b) ":"%byte =? -1) eqn:E';
        [apply Z.eqb_eq in E'; auto|].
      pose proof (IndexByte_bounds (a ++ ":"%byte :: b) ":"%byte). lia.
  - right. now apply IndexByte_found.
Qed.


(** X2.  The separator is kept and never made up: the rendered key holds a
    [:] exactly when the raw key does. *)
Theorem rendered_key_keeps_separator (key : list byte) :
  string_mem ":" (parseWeaveKey key) = true <-> In ":"%byte key.
Proof.
  destruct (key_shape key) as [H | (p & i & -> & H)].
  - rewrite parseWeaveKey_no_separator by exact H. split; [|tauto].
    apply encodeID_output_separator.
  - rewrite parseWeaveKey_split by exact H. split.
    + intros _. apply in_or_app. right. now left.
    + intros _. rewrite !string_mem_append. cbn. apply orb_true_r.
Qed.

Lemma text_bytes_class (e : string) :
  forall_string printable_char e = negb (existsb needs_hex (list_byte_of_string e))
  /\ (string_mem ":" e = true <-> In ":"%byte (list_byte_of_string e)).
Proof.
  split.
  - now rewrite <- text_printable, string_of_list_byte_of_string.
  - now rewrite <- separator_in, <- text_separator, string_of_list_byte_of_string.
Qed.

(** Text of the range 0x20-0x7F renders as itself. *)
Lemma encodeID_of_text (e : string) :
  forall_string printable_char e = true ->
  encodeID (list_byte_of_string e) = e.
Proof.
  intros H. rewrite encodeID_cases.
  rewrite (proj1 (text_bytes_class e)) in H. apply negb_true_iff in H.
  now rewrite H, string_of_list_byte_of_string.
Qed.

Lemma encodeID_twice (seg : list byte) :
  encodeID (list_byte_of_string (encodeID seg)) = encodeID seg.
Proof. apply encodeID_of_text, encodeID_output_printable. Qed.

(** X3.  Rendering is idempotent: a rendered key, read back as bytes and
    rendered again, is unchanged. *)
Theorem rendering_is_idempotent (key : list byte) :
  parseWeaveKey (list_byte_of_string (parseWeaveKey key)) = parseWeaveKey key.
Proof.
  destruct (key_shape key) as [H | (p & i & -> & H)].
  - rewrite (parseWeaveKey_no_separator key H).
    rewrite parseWeaveKey_no_separator; [apply encodeID_twice|].
    intros Hin. apply text_bytes_class in Hin.
    now apply encodeID_output_separator in Hin.
  - rewrite (parseWeaveKey_split p i H).
    rewrite list_byte_of_string_append.
    change (list_byte_of_string (":" ++ encodeID i))
      with (":"%byte :: list_byte_of_string (encodeID i)).
    rewrite parseWeaveKey_split; [now rewrite !encodeID_twice|].
    intros Hin. apply text_bytes_class in Hin.
    now apply encodeID_output_separator in Hin.
Qed.

Lemma Exists_needs_hex (seg : list byte) :
  Exists (fun b => ~ printable b) seg -> existsb needs_hex seg = true.
Proof.
  intros H. apply Exists_exists in H as [b [Hin Hb]].
  apply existsb_exists. exists b. split; [exact Hin|].
  destruct (needs_hex b) eqn:E; [reflexivity|].
  now apply needs_hex_printable in E.
Qed.

(** X4.  Rendering loses information: a segment with a byte outside the
    printable range renders exactly like another segment, the ASCII text that
    spells its hexadecimal form. *)
Theorem binary_segment_collides_with_its_hex_text (seg : list byte) :
  Exists (fun b => ~ printable b) seg ->
  encodeID (list_byte_of_string (upper_hex seg)) = encodeID seg
  /\ list_byte_of_string (upper_hex seg) <> seg.
Proof.
  intros H. pose proof (Exists_needs_hex seg H) as Hhex.
  pose proof (proj1 (upper_hex_printable seg)) as Hp. split.
  - rewrite (encodeID_binary seg H). now apply encodeID_of_text.
  - intros E. rewrite (proj1 (text_bytes_class _)), E, Hhex in Hp. discriminate.
Qed.

Lemma binary_segment_collides_with_its_hex_text_witness :
  encodeID (list_byte_of_string (upper_hex [x00; xff])) = encodeID [x00; xff]
  /\ list_byte_of_string (upper_hex [x00; xff]) <> [x00; xff].
Proof.
  apply (binary_segment_collides_with_its_hex_text [x00; xff]).
  apply Exists_cons_hd. exact zero_byte_not_printable.
Defined.

Lemma DecodeString_upper_hex (seg : list byte) :
  DecodeString (upper_hex seg) = (seg, None).
Proof.
  induction seg as [|v seg IH]; [reflexivity|].
  destruct (upper_hex_digits_class v) as (_ & _ & _ & _ & H5 & H6 & H7).
  cbv zeta in H5, H6, H7. cbn [upper_hex DecodeString].
  now rewrite H5, H6, IH, H7.
Qed.

(** X5.  A segment that is rendered in hexadecimal can be given back to the
    program: hex.DecodeString, which main applies to the address argument,
    returns the bytes of the segment and no error. *)
Theorem hex_rendering_decodes_back (seg : list byte) :
  Exists (fun b => ~ printable b) seg ->
  DecodeString (encodeID seg) = (seg, None).
Proof.
  intros H. rewrite (encodeID_binary seg H). apply DecodeString_upper_hex.
Qed.

Lemma hex_rendering_decodes_back_witness :
  DecodeString (encodeID [x00; x61; xff]) = ([x00; x61; xff], None).
Proof.
  apply (hex_rendering_decodes_back [x00; x61; xff]).
  apply Exists_cons_hd. exact zero_byte_not_printable.
Defined.

(** ** The outline of the tree *)

(** X6.  A node of the outline is marked [*] when it is a leaf and [-] when
    it is not, then come its depth, a space, and its rendered identifier or
    [<nil>] when it has none.  A leaf's line is never an inner node's line;
    but a node whose identifier is the text [<nil>] shows like a node without
    one. *)
Theorem nodeEncoder_format (id id' : list byte) (depth depth' : Z) (isLeaf : bool) :
  nodeEncoder id depth isLeaf
  = (if isLeaf then "*" else "-") ++ fmt_d depth ++ " "
    ++ (if len id =? 0 then "<nil>" else parseWeaveKey id)
  /\ nodeEncoder id depth true <> nodeEncoder id' depth' false
  /\ nodeEncoder (list_byte_of_string "<nil>") depth isLeaf
     = nodeEncoder [] depth isLeaf.
Proof.
  assert (forall i d l,
             nodeEncoder i d l
             = (if l then "*" else "-") ++ fmt_d d ++ " "
               ++ (if len i =? 0 then "<nil>" else parseWeaveKey i)) as Hfmt.
  { intros i d l. unfold nodeEncoder.
    destruct l, (len i =? 0); cbn; rewrite ?append_assoc, ?append_empty_r;
      reflexivity. }
  split; [apply Hfmt | split].
  - rewrite !Hfmt. cbn. discriminate.
  - rewrite !Hfmt. reflexivity.
Qed.

(** ** Lists and traversals *)

Lemma for_range_text {A} (f : A -> string) (body : Z -> A -> M unit) :
  (forall idx x w, body idx x w = (emit (f x) w, Done tt)) ->
  forall l idx w, for_range_from idx l body w = (emit (text_of f l) w, Done tt).
Proof.
  intros Hbody. induction l as [|x l IH]; intros idx w; cbn [for_range_from text_of].
  - unfold ret. now rewrite emit_empty.
  - rewrite (bind_done _ _ _ _ _ (Hbody idx x w)), IH. now rewrite emit_emit.
Qed.

(** X7.  PrintVersions writes its heading and then one line for every
    available version, in the order the tree gives them; over a store
    without versions the heading is all it writes. *)
Theorem PrintVersions_lists_every_version (t : MutableTree) (w : World) :
  PrintVersions (Some t) w
  = (emit (lines ["Available versions:"]
           ++ text_of (fun v => lines ["  " ++ fmt_d v]) (AvailableVersions t)) w,
     Done tt).
Proof.
  unfold PrintVersions, deref. rewrite bind_ret.
  unfold bind at 1. unfold Println, write_stdout at 1.
  unfold for_range.
  rewrite (for_range_text (fun v => lines ["  " ++ fmt_d v])).
  - rewrite <- emit_emit. reflexivity.
  - intros idx v w'. rewrite Printf_emit. reflexivity.
Qed.

Lemma iterate_digest (es : list (list byte * list byte)) (w : World) :
  iterate es PrintKeys_visit tt w
  = (emit (text_of (fun e => digest_entry (fst e) (snd e)) es) w, Done (tt, false)).
Proof.
  revert w. induction es as [|[k v] es IH]; intros w; cbn [iterate text_of fst snd].
  - unfold ret. now rewrite emit_empty.
  - rewrite (bind_done _ _ _ _ _ (PrintKeys_visit_run k v w)).
    cbn iota beta. rewrite IH. now rewrite emit_emit.
Qed.

Lemma PrintKeys_run (t : MutableTree) (w : World) :
  PrintKeys (Some t) w
  = (emit (header
           ++ text_of (fun e => digest_entry (fst e) (snd e)) (entries (loaded t)))
       w,
     Done tt).
Proof.
  unfold PrintKeys, deref. unfold bind at 1. unfold Println, write_stdout at 1.
  rewrite bind_ret. unfold Iterate.
  rewrite (bind_done _ _ _ _ _ (iterate_digest _ _)).
  unfold ret. rewrite <- emit_emit. reflexivity.
Qed.

(** X8.  The digest traversal never fails: it writes the heading and then,
    for every pair of the snapshot in order, the rendered key and the
    upper-case SHA-256 digest of the value, and nothing else. *)
Theorem PrintKeys_lists_every_pair (t : MutableTree) (w : World) :
  PrintKeys (Some t) w
  = (emit (lines ["Printing all keys with hashed values (to detect diff)"]
           ++ text_of (fun e => digest_entry (fst e) (snd e)) (entries (loaded t)))
       w,
     Done tt).
Proof. apply PrintKeys_run. Qed.

(** ** Looking a record up *)

Lemma bytes_eqb_eq (a b : list byte) : bytes_eqb a b = true <-> a = b.
Proof.
  revert b. induction a as [|x a IH]; intros [|y b]; simpl;
    try (split; [discriminate | congruence]); [tauto|].
  rewrite andb_true_iff, IH. split.
  - intros [H ->]. apply Byte.byte_dec_bl in H. now subst.
  - intros H. injection H as -> ->. split; [apply byte_eqb_refl | reflexivity].
Qed.

Lemma Get_absent (t : MutableTree) (key : list byte) :
  (forall e, In e (entries (loaded t)) -> fst e <> key) -> Get t key = None.
Proof.
  intros H. unfold Get.
  destruct (find _ _) as [e|] eqn:E; [|reflexivity].
  apply find_some in E as [Hin Heq]. apply bytes_eqb_eq in Heq.
  now apply H in Hin.
Qed.

Lemma Get_present (t : MutableTree) (key value : list byte) :
  NoDup (map fst (entries (loaded t))) ->
  In (key, value) (entries (loaded t)) ->
  Get t key = Some value.
Proof.
  unfold Get. induction (entries (loaded t)) as [|[k v] es IH];
    intros Hnd Hin; [contradiction|].
  cbn [find fst]. inversion Hnd as [|? ? Hk Hnd']; subst.
  destruct (bytes_eqb k key) eqn:E.
  - apply bytes_eqb_eq in E. subst k. destruct Hin as [Hin | Hin].
    + now injection Hin as ->.
    + exfalso. apply Hk. now apply (in_map fst) in Hin.
  - destruct Hin as [Hin | Hin].
    + injection Hin as -> ->. rewrite (proj2 (bytes_eqb_eq key key) eq_refl) in E.
      discriminate.
    + now apply IH.
Qed.

Section Records.

Context {X : External}.

(** X9.  PrintBalance looks the address up under the tag 0x02, the
    length-prefixed address and the denomination [basecro]; when no pair of
    the snapshot has that key it writes [not found] and ends normally. *)
Theorem PrintBalance_not_found (t : MutableTree) (addr lp : list byte) (w : World) :
  MustLengthPrefix addr = inl lp ->
  (forall e, In e (entries (loaded t)) -> fst e <> balance_key lp) ->
  PrintBalance (Some t) addr w = (emit (lines ["not found"]) w, Done tt).
Proof.
  intros Hlp Habsent. unfold PrintBalance. rewrite Hlp.
  cbv zeta. unfold deref. rewrite bind_ret.
  change (Get t _) with (Get t (balance_key lp)).
  now rewrite (Get_absent t _ Habsent).
Qed.

(** X10.  When the snapshot (its keys distinct) holds a value under the
    balance key of the address, PrintBalance writes the decoded coin on a
    line of its own, and panics with the codec's error when the value does
    not decode. *)
Theorem PrintBalance_found (t : MutableTree) (addr lp value : list byte)
    (w : World) :
  MustLengthPrefix addr = inl lp ->
  NoDup (map fst (entries (loaded t))) ->
  In (balance_key lp, value) (entries (loaded t)) ->
  PrintBalance (Some t) addr w
  = match UnmarshalCoin value with
    | inl balance => (emit (lines [balance]) w, Done tt)
    | inr err => (w, Panic err)
    end.
Proof.
  intros Hlp Hnd Hin. unfold PrintBalance. rewrite Hlp.
  cbv zeta. unfold deref. rewrite bind_ret.
  change (Get t _) with (Get t (balance_key lp)).
  rewrite (Get_present t _ value Hnd Hin).
  destruct (UnmarshalCoin value); reflexivity.
Qed.

(** X11.  PrintAccount looks the address up under the store key of the
    account; when no pair of the snapshot has that key it writes [not found]
    and ends normally. *)
Theorem PrintAccount_not_found (t : MutableTree) (addr : list byte) (w : World) :
  (forall e, In e (entries (loaded t)) -> fst e <> AddressStoreKey addr) ->
  PrintAccount (Some t) addr w = (emit (lines ["not found"]) w, Done tt).
Proof.
  intros Habsent. unfold PrintAccount, deref. rewrite bind_ret.
  now rewrite (Get_absent t _ Habsent).
Qed.

(** X12.  When the snapshot (its keys distinct) holds a value under the
    store key of the account, PrintAccount writes the sequence number of the
    decoded account in decimal, and panics with the codec's error when the
    value does not decode. *)
Theorem PrintAccount_found (t : MutableTree) (addr value : list byte) (w : World) :
  NoDup (map fst (entries (loaded t))) ->
  In (AddressStoreKey addr, value) (entries (loaded t)) ->
  PrintAccount (Some t) addr w
  = match UnmarshalAccountSequence value with
    | inl sequence => (emit (lines [fmt_d sequence]) w, Done tt)
    | inr err => (w, Panic err)
    end.
Proof.
  intros Hnd Hin. unfold PrintAccount, deref. rewrite bind_ret.
  rewrite (Get_present t _ value Hnd Hin).
  destruct (UnmarshalAccountSequence value); reflexivity.
Qed.

End Records.

Lemma PrintBalance_not_found_witness :
  PrintBalance (X := fixture) (Some (mkTree [] bank_v2)) [xaa] empty_world
  = (emit (lines ["not found"]) empty_world, Done tt).
Proof.
  apply (PrintBalance_not_found (X := fixture) (mkTree [] bank_v2) [xaa] [xaa]).
  - reflexivity.
  - intros e [<- | [<- | []]]; discriminate.
Defined.

Lemma ledger_keys_distinct : NoDup (map fst (entries ledger)).
Proof.
  apply NoDup_cons; [intros [H | []]; discriminate H|].
  apply NoDup_cons; [intros [] | apply NoDup_nil].
Qed.

Lemma PrintBalance_found_witness :
  PrintBalance (X := fixture) (Some (mkTree [] ledger)) [xaa] empty_world
  = (emit (lines ["1basecro"]) empty_world, Done tt).
Proof.
  apply (PrintBalance_found (X := fixture) (mkTree [] ledger) [xaa] [xaa]
           (bytes_of "coin")).
  - reflexivity.
  - exact ledger_keys_distinct.
  - right. left. reflexivity.
Defined.

Lemma PrintAccount_not_found_witness :
  PrintAccount (X := fixture) (Some (mkTree [] bank_v2)) [xaa] empty_world
  = (emit (lines ["not found"]) empty_world, Done tt).
Proof.
  apply (PrintAccount_not_found (X := fixture) (mkTree [] bank_v2) [xaa]).
  intros e [<- | [<- | []]]; discriminate.
Defined.

Lemma PrintAccount_found_witness :
  PrintAccount (X := fixture) (Some (mkTree [] ledger)) [xaa] empty_world
  = (emit (lines ["7"]) empty_world, Done tt).
Proof.
  apply (PrintAccount_found (X := fixture) (mkTree [] ledger) [xaa]
           (bytes_of "account")).
  - exact ledger_keys_distinct.
  - left. reflexivity.
Defined.

(** ** Opening and reading, when the path is well formed *)

Lemma LastIndexByte_last (p name : string) (c : ascii) :
  LastIndexByte name c = -1 -> LastIndexByte (p ++ String c name) c = slen p.
Proof.
  intros H. unfold slen. induction p as [|a p IH]; simpl.
  - now rewrite H, Ascii.eqb_refl.
  - rewrite IH.
    destruct (Z.of_nat (String.length p) =? -1) eqn:E;
      [apply Z.eqb_eq in E|]; lia.
Qed.

Section Reading.

Context {X : External}.

(** X13.  For a path [parent/name.db], with or without a slash at its end
    and with no slash in [name], OpenDB asks NewRocksDB once, for the
    database [name] in the directory [parent], and returns what it answers,
    handle or error. *)
Theorem OpenDB_opens_named_database (parent name suffix : string) (w : World) :
  suffix = ".db" \/ suffix = ".db/" ->
  (forall a b, name <> a ++ "/" ++ b) ->
  OpenDB (parent ++ "/" ++ name ++ suffix) w
  = (mkWorld (stdout w) (stderr w) (opened w ++ [(name, parent)]),
     Done (NewRocksDB name parent)).
Proof.
  intros Hsuffix Hname. apply LastIndexByte_absent in Hname.
  assert (LastIndexByte (parent ++ "/" ++ name) "/" = slen parent) as Hcut
    by now apply LastIndexByte_last.
  assert (str_from (parent ++ "/" ++ name) (slen parent + 1) = name) as Hn.
  { replace (slen parent + 1) with (slen (parent ++ "/"))
      by (unfold slen; rewrite length_append; simpl; lia).
    rewrite <- (append_assoc parent "/" name). apply str_from_append. }
  assert (str_to (parent ++ "/" ++ name) (slen parent) = parent) as Hp
    by apply str_to_append.
  assert ((slen parent =? -1) = false) as Hne
    by (apply Z.eqb_neq; unfold slen; lia).
  replace (parent ++ "/" ++ name ++ suffix)
    with ((parent ++ "/" ++ name) ++ suffix)
    by now rewrite !append_assoc.
  unfold OpenDB. destruct Hsuffix as [-> | ->].
  - assert (HasSuffix ((parent ++ "/" ++ name) ++ ".db") ".db" = true) as ->
      by (apply HasSuffix_ends_with; now eexists).
    change 3 with (slen ".db"). rewrite trim_suffix, Hcut, Hne, Hn, Hp.
    unfold bind, open_rocksdb. destruct (NewRocksDB name parent); reflexivity.
  - assert (HasSuffix ((parent ++ "/" ++ name) ++ ".db/") ".db" = false) as ->.
    { destruct (HasSuffix _ ".db") eqn:E; [|reflexivity].
      apply HasSuffix_ends_with in E as [q E]. symmetry in E.
      now apply suffixes_exclusive in E. }
    assert (HasSuffix ((parent ++ "/" ++ name) ++ ".db/") ".db/" = true) as ->
      by (apply HasSuffix_ends_with; now eexists).
    change 4 with (slen ".db/"). rewrite trim_suffix, Hcut, Hne, Hn, Hp.
    unfold bind, open_rocksdb. destruct (NewRocksDB name parent); reflexivity.
Qed.

Lemma OpenDB_returns (dir : string) (w : World) :
  exists w1 r, OpenDB dir w = (w1, Done r) /\ stderr w1 = stderr w
               /\ stdout w1 = stdout w.
Proof.
  unfold OpenDB.
  destruct (if HasSuffix dir ".db" then _ else _) as [stem|].
  - destruct (LastIndexByte stem "/" =? -1).
    + now eexists _, _.
    + unfold bind, open_rocksdb.
      destruct (NewRocksDB _ _); now eexists _, _.
  - now eexists _, _.
Qed.

Lemma ReadTree_done (dir : string) (version : Z) (prefix : list byte) (w : World) :
  exists w' tree err,
    ReadTree dir version prefix w = (w', Done (tree, err))
    /\ (tree = None -> err <> None)
    /\ stderr w' = stderr w.
Proof.
  unfold ReadTree.
  destruct (OpenDB_returns dir w) as (w1 & r & Hopen & Herr & _).
  rewrite (bind_done _ _ _ _ _ Hopen). destruct r as [db | e].
  - cbn iota beta.
    destruct (NewMutableTree _ DefaultCacheSize) as [t0 | e].
    + destruct (LoadVersion t0 version) as [tree [ver err]].
      exists (emit (Sprintf (lines ["Got version: %d"]) [AInt64 ver]) w1),
        (Some tree), err.
      repeat split; [discriminate | exact Herr].
    + exists w1, None, (Some e). repeat split; [discriminate | exact Herr].
  - exists w1, None, (Some e). repeat split; [discriminate | exact Herr].
Qed.


End Reading.

Lemma OpenDB_opens_named_database_witness :
  OpenDB (X := fixture) ("/data" ++ "/" ++ "application" ++ ".db/") empty_world
  = (mkWorld "" "" ([] ++ [("application", "/data")]),
     Done (NewRocksDB (External := fixture) "application" "/data")).
Proof.
  apply (OpenDB_opens_named_database (X := fixture) "/data" "application" ".db/"
           empty_world).
  - right. reflexivity.
  - apply LastIndexByte_absent. reflexivity.
Defined.

(** ** The commands of main *)

Ltac text_eq :=
  cbn; repeat (rewrite append_assoc; cbn); rewrite ?append_empty_r; reflexivity.

Ltac step_ret :=
  match goal with
  | |- context [bind (ret ?a) ?k] => change (bind (ret a) k) with (k a); cbv beta
  end.

Section Commands.

Context {X : External}.

Lemma len_at_least_four {A} (a b c d : A) (more : list A) :
  (len (a :: b :: c :: d :: more) <? 3) = false
  /\ (len (a :: b :: c :: d :: more) >=? 4) = true.
Proof.
  rewrite !len_cons. pose proof (len_nonneg more). split.
  - apply Z.ltb_ge. lia.
  - apply Z.geb_le. lia.
Qed.

(** main, for a command that reads one tree, up to its switch. *)
Lemma main_after_read (cmd dir prefix : string) (rest : list string)
    (version : Z) (tree : option MutableTree) (err : option error)
    (w w1 : World) :
  string_in cmd commands = true ->
  String.eqb cmd "stastistics" = false ->
  version_of rest version ->
  ReadTree dir version (list_byte_of_string prefix) w = (w1, Done (tree, err)) ->
  main (cmd :: dir :: prefix :: rest) w
  = match err with
    | Some e =>
        (emit_err (Sprintf (lines ["Error reading data: %s"]) [AString e]) w1,
         Exit 1)
    | None => dispatch (cmd :: dir :: prefix :: rest) cmd version tree w1
    end.
Proof.
  intros Hcmd Hstat Hver Hread. unfold main.
  destruct Hver as [[-> ->] | (a3 & more & -> & Hver)].
  - change (len [cmd; dir; prefix] <? 3) with false.
    change (len [cmd; dir; prefix] >=? 4) with false.
    change (index [cmd; dir; prefix] 0) with (ret cmd).
    change (index [cmd; dir; prefix] 1) with (ret dir).
    change (index [cmd; dir; prefix] 2) with (ret prefix).
    cbv iota. repeat step_ret. rewrite Hcmd. cbn [negb]. repeat step_ret. rewrite Hstat.
    cbn [negb]. repeat step_ret.
    unfold bind at 1. unfold bind at 1. rewrite Hread.
    destruct err; [reflexivity|]. unfold dispatch. rewrite Hstat. reflexivity.
  - destruct (len_at_least_four cmd dir prefix a3 more) as [-> ->].
    change (index (cmd :: dir :: prefix :: a3 :: more) 0) with (ret cmd).
    change (index (cmd :: dir :: prefix :: a3 :: more) 1) with (ret dir).
    change (index (cmd :: dir :: prefix :: a3 :: more) 2) with (ret prefix).
    change (index (cmd :: dir :: prefix :: a3 :: more) 3) with (ret a3).
    repeat step_ret. rewrite Hcmd. cbn [negb]. repeat step_ret. rewrite Hver. repeat step_ret. rewrite Hstat.
    cbn [negb]. repeat step_ret.
    unfold bind at 1. unfold bind at 1. rewrite Hread.
    destruct err; [reflexivity|]. unfold dispatch. rewrite Hstat. reflexivity.
Qed.

(** main, for the command [stastistics]. *)
Lemma main_statistics (dir prefix : string) (rest : list string) (version : Z)
    (w : World) :
  version_of rest version ->
  main ("stastistics" :: dir :: prefix :: rest) w = PrintStatistics dir version w.
Proof.
  intros Hver. unfold main.
  destruct Hver as [[-> ->] | (a3 & more & -> & Hver)].
  - reflexivity.
  - destruct (len_at_least_four "stastistics" dir prefix a3 more) as [-> ->].
    change (index ("stastistics" :: dir :: prefix :: a3 :: more) 0)
      with (ret "stastistics").
    change (index ("stastistics" :: dir :: prefix :: a3 :: more) 1) with (ret dir).
    change (index ("stastistics" :: dir :: prefix :: a3 :: more) 3) with (ret a3).
    repeat step_ret. cbn [negb string_in existsb commands String.eqb Ascii.eqb
                             Bool.eqb orb].
    repeat step_ret. rewrite Hver. reflexivity.
Qed.

End Commands.

Section CommandProperties.

Context {X : External}.

(** X15.  Whatever keeps the tree from being read (a malformed path, a
    database that does not open, a version that does not load), the commands
    that read one tree write [Error reading data:] with the error to
    standard error and leave with status 1. *)
Theorem main_reports_read_failure (cmd dir prefix : string) (rest : list string)
    (version : Z) (tree : option MutableTree) (e : error) (w w1 : World) :
  string_in cmd commands = true ->
  String.eqb cmd "stastistics" = false ->
  version_of rest version ->
  ReadTree dir version (list_byte_of_string prefix) w = (w1, Done (tree, Some e)) ->
  main (cmd :: dir :: prefix :: rest) w
  = (emit_err (lines ["Error reading data: " ++ e]) w1, Exit 1).
Proof.
  intros Hcmd Hstat Hver Hread.
  rewrite (main_after_read cmd dir prefix rest version tree (Some e) w w1
             Hcmd Hstat Hver Hread).
  reflexivity.
Qed.

(** X16.  The command [stastistics] never looks at its prefix argument: two
    command lines that differ in it alone behave alike. *)
Theorem statistics_command_ignores_prefix (dir p1 p2 : string)
    (rest : list string) (w : World) :
  main ("stastistics" :: dir :: p1 :: rest) w
  = main ("stastistics" :: dir :: p2 :: rest) w.
Proof.
  destruct rest as [|a3 more].
  - now rewrite !(main_statistics dir _ [] 0 w) by (left; split; reflexivity).
  - destruct (Atoi a3) as [v | err] eqn:E.
    + now rewrite !(main_statistics dir _ (a3 :: more) v w)
        by (right; now exists a3, more).
    + now rewrite !(main_invalid_version "stastistics" dir _ a3 more err w)
        by (reflexivity || exact E).
Qed.

Lemma dispatch_without_address (args1 args2 : list string) (cmd : string)
    (version : Z) (tree : option MutableTree) :
  cmd <> "balance" -> cmd <> "nonce" -> String.eqb cmd "stastistics" = false ->
  dispatch args1 cmd version tree = dispatch args2 cmd version tree.
Proof.
  intros Hb Hn Hs. unfold dispatch. rewrite Hs.
  apply String.eqb_neq in Hb, Hn. now rewrite Hb, Hn.
Qed.

(** X17.  A version argument that reads as 0 changes nothing: for every
    command but [balance] and [nonce] (which index the address behind it),
    the command line with it and the command line without it behave alike. *)
Theorem zero_version_is_the_default (cmd dir prefix a3 : string) (w : World) :
  Atoi a3 = inl 0 ->
  cmd <> "balance" -> cmd <> "nonce" ->
  main [cmd; dir; prefix; a3] w = main [cmd; dir; prefix] w.
Proof.
  intros Hver Hb Hn.
  assert (version_of [a3] 0) as H4 by (right; now exists a3, []).
  assert (version_of [] 0) as H3 by (left; split; reflexivity).
  destruct (string_in cmd commands) eqn:Hcmd;
    [|now rewrite !main_unknown_command].
  destruct (String.eqb cmd "stastistics") eqn:Hs.
  - apply String.eqb_eq in Hs. subst cmd.
    now rewrite (main_statistics dir prefix [a3] 0 w H4),
      (main_statistics dir prefix [] 0 w H3).
  - destruct (ReadTree_done dir 0 (list_byte_of_string prefix) w)
      as (w1 & tree & err & Hread & _).
    rewrite (main_after_read cmd dir prefix [a3] 0 tree err w w1 Hcmd Hs H4 Hread),
      (main_after_read cmd dir prefix [] 0 tree err w w1 Hcmd Hs H3 Hread).
    destruct err; [reflexivity|].
    now rewrite (dispatch_without_address [cmd; dir; prefix; a3]
                   [cmd; dir; prefix] cmd 0 tree Hb Hn Hs).
Qed.

(** X18.  The command [data], once the tree is read: the digest listing of
    the snapshot, then the root hash in upper-case hexadecimal, then the
    number of pairs, which is written in hexadecimal too. *)
Theorem data_command_output (dir prefix : string) (rest : list string)
    (version : Z) (t : MutableTree) (w w1 : World) :
  version_of rest version ->
  ReadTree dir version (list_byte_of_string prefix) w = (w1, Done (Some t, None)) ->
  main ("data" :: dir :: prefix :: rest) w
  = (emit (lines ["Printing all keys with hashed values (to detect diff)"]
           ++ text_of (fun e => digest_entry (fst e) (snd e)) (entries (loaded t))
           ++ lines ["Hash: " ++ upper_hex (Hash t); "Size: " ++ fmt_X (Size t)])
       w1,
     Done tt).
Proof.
  intros Hver Hread.
  rewrite (main_after_read "data" dir prefix rest version (Some t) None w w1
             eq_refl eq_refl Hver Hread).
  unfold dispatch. cbn [String.eqb Ascii.eqb Bool.eqb].
  rewrite (bind_done _ _ _ _ _ (PrintKeys_run t w1)).
  unfold deref. rewrite bind_ret. unfold bind. rewrite !Printf_emit, !emit_emit.
  f_equal. f_equal. fold header. rewrite !append_assoc.
  do 2 f_equal. cbn. now rewrite !append_assoc.
Qed.

(** X19.  [balance] and [nonce] with an address argument, once the tree is
    read: an argument that is not hexadecimal ends the program in a panic
    with the error of hex.DecodeString; otherwise the decoded bytes go to
    PrintBalance, respectively PrintAccount.  Arguments behind the address
    are not looked at. *)
Theorem address_commands (dir prefix a3 a4 : string) (more : list string)
    (version : Z) (tree : option MutableTree) (w w1 : World) :
  Atoi a3 = inl version ->
  ReadTree dir version (list_byte_of_string prefix) w = (w1, Done (tree, None)) ->
  main ("balance" :: dir :: prefix :: a3 :: a4 :: more) w
  = match DecodeString a4 with
    | (_, Some err) => (w1, Panic err)
    | (addr, None) => PrintBalance tree addr w1
    end
  /\ main ("nonce" :: dir :: prefix :: a3 :: a4 :: more) w
     = match DecodeString a4 with
       | (_, Some err) => (w1, Panic err)
       | (addr, None) => PrintAccount tree addr w1
       end.
Proof.
  intros Hver Hread.
  assert (version_of (a3 :: a4 :: more) version) as Hv
    by (right; now exists a3, (a4 :: more)).
  split.
  - rewrite (main_after_read "balance" dir prefix _ version tree None w w1
               eq_refl eq_refl Hv Hread).
    unfold dispatch. cbn [String.eqb Ascii.eqb Bool.eqb].
    change (index ("balance" :: dir :: prefix :: a3 :: a4 :: more) 4) with (ret a4).
    rewrite bind_ret. destruct (DecodeString a4) as [addr [err|]]; reflexivity.
  - rewrite (main_after_read "nonce" dir prefix _ version tree None w w1
               eq_refl eq_refl Hv Hread).
    unfold dispatch. cbn [String.eqb Ascii.eqb Bool.eqb].
    change (index ("nonce" :: dir :: prefix :: a3 :: a4 :: more) 4) with (ret a4).
    rewrite bind_ret. destruct (DecodeString a4) as [addr [err|]]; reflexivity.
Qed.

(** X20.  With fewer than three arguments, or with a first argument that is
    not a command, main writes the three lines of the usage text to standard
    error and leaves with status 1; it writes nothing to standard output and
    asks for no database. *)
Theorem main_usage (args : list string) (w : World) :
  len args < 3
  \/ (exists a0 rest, args = a0 :: rest /\ string_in a0 commands = false) ->
  main args w = (emit_err (lines usage) w, Exit 1).
Proof.
  intros [H | (a0 & rest & -> & H)].
  - now apply main_too_few_arguments.
  - now apply main_unknown_command.
Qed.

(** X21.  A fourth argument that strconv.Atoi does not take as a number of
    the range of [int] makes every command write [Invalid version number:]
    with the error and leave with status 1, before any database is asked
    for. *)
Theorem main_rejects_version (cmd dir prefix a3 : string) (more : list string)
    (w : World) :
  string_in cmd commands = true ->
  (forall v, Atoi a3 <> inl v) ->
  exists err,
    Atoi a3 = inr err
    /\ main (cmd :: dir :: prefix :: a3 :: more) w
       = (emit_err (lines ["Invalid version number: " ++ err]) w, Exit 1).
Proof.
  intros Hcmd Hbad. destruct (Atoi a3) as [v | err] eqn:E.
  - now destruct (Hbad v).
  - exists err. split; [reflexivity|].
    rewrite (main_invalid_version cmd dir prefix a3 more err w Hcmd E).
    reflexivity.
Qed.

End CommandProperties.

Lemma main_reports_read_failure_witness :
  main (X := fixture) ["data"; "/data/application"; "x"] empty_world
  = (emit_err (lines ["Error reading data: " ++ "database directory must end with .db"])
       empty_world, Exit 1).
Proof.
  apply (main_reports_read_failure (X := fixture) "data" "/data/application" "x"
           [] 0 None "database directory must end with .db" empty_world empty_world).
  - reflexivity.
  - reflexivity.
  - left. split; reflexivity.
  - reflexivity.
Defined.

Lemma zero_version_is_the_default_witness :
  main (X := fixture) ["versions"; "/data/application.db"; "s/k:bank/"; "0"] empty_world
  = main (X := fixture) ["versions"; "/data/application.db"; "s/k:bank/"] empty_world.
Proof.
  apply (zero_version_is_the_default (X := fixture) "versions"
           "/data/application.db" "s/k:bank/" "0" empty_world).
  - reflexivity.
  - discriminate.
  - discriminate.
Defined.

Lemma data_command_output_witness :
  main (X := fixture) ["data"; "/data/application.db"; "s/k:bank/"] empty_world
  = (emit (lines ["Printing all keys with hashed values (to detect diff)"]
           ++ text_of (fun e => digest_entry (fst e) (snd e)) (entries bank_v2)
           ++ lines ["Hash: " ++ upper_hex [x02]; "Size: " ++ fmt_X 2])
       (mkWorld (lines ["Got version: 2"]) "" [("application", "/data")]),
     Done tt).
Proof.
  apply (data_command_output (X := fixture) "/data/application.db" "s/k:bank/" [] 0
           (mkTree (versions bank_tree) bank_v2) empty_world
           (mkWorld (lines ["Got version: 2"]) "" [("application", "/data")])).
  - left. split; reflexivity.
  - reflexivity.
Defined.

Lemma address_commands_witness :
  main (X := fixture)
    ["balance"; "/data/application.db"; "s/k:bank/"; "0"; "zz"] empty_world
  = match DecodeString "zz" with
    | (_, Some err) =>
        (mkWorld (lines ["Got version: 2"]) "" [("application", "/data")], Panic err)
    | (addr, None) =>
        PrintBalance (X := fixture) (Some (mkTree (versions bank_tree) bank_v2)) addr
          (mkWorld (lines ["Got version: 2"]) "" [("application", "/data")])
    end
  /\ main (X := fixture)
       ["nonce"; "/data/application.db"; "s/k:bank/"; "0"; "zz"] empty_world
     = match DecodeString "zz" with
       | (_, Some err) =>
           (mkWorld (lines ["Got version: 2"]) "" [("application", "/data")], Panic err)
       | (addr, None) =>
           PrintAccount (X := fixture) (Some (mkTree (versions bank_tree) bank_v2)) addr
             (mkWorld (lines ["Got version: 2"]) "" [("application", "/data")])
       end.
Proof.
  apply (address_commands (X := fixture) "/data/application.db" "s/k:bank/" "0" "zz"
           [] 0 (Some (mkTree (versions bank_tree) bank_v2)) empty_world
           (mkWorld (lines ["Got version: 2"]) "" [("application", "/data")])).
  - reflexivity.
  - reflexivity.
Defined.

Example balance_of_unknown_address :
  main (X := fixture)
    ["balance"; "/data/application.db"; "s/k:bank/"; "2"; "0a1F"] empty_world
  = (mkWorld (lines ["Got version: 2"; "not found"]) ""
       [("application", "/data")], Done tt).
Proof. vm_compute. reflexivity. Qed.

Lemma main_usage_witness :
  main (X := fixture) ["data"; "/data/application.db"] empty_world
  = (emit_err (lines usage) empty_world, Exit 1).
Proof.
  apply (main_usage (X := fixture) ["data"; "/data/application.db"] empty_world).
  left. reflexivity.
Defined.

Lemma main_rejects_version_witness :
  exists err,
    Atoi (X := fixture) "latest" = inr err
    /\ main (X := fixture) ["data"; "/data/application.db"; "s/k:bank/"; "latest"]
         empty_world
       = (emit_err (lines ["Invalid version number: " ++ err]) empty_world, Exit 1).
Proof.
  apply (main_rejects_version (X := fixture) "data" "/data/application.db"
           "s/k:bank/" "latest" [] empty_world).
  - reflexivity.
  - intros v H. discriminate H.
Defined.

(** ** The statistics, module by module *)

Lemma PrintKeysWithValueSize_empty (t : MutableTree) (w : World) :
  entries (loaded t) = [] ->
  PrintKeysWithValueSize (Some t) w
  = (emit (header ++ lines ["0 keys, keySizeTotal: 0, valueSizeTotal: 0"]) w,
     Panic divide_error).
Proof.
  destruct t as [vs [es hash height]]. cbn [entries loaded]. intros ->.
  unfold PrintKeysWithValueSize, emit. destruct w as [out err ops].
  cbn. now rewrite append_assoc.
Qed.

Section Modules.

Context {X : External}.

(** X22.  A module whose tree is read and has no pairs ends the whole
    statistics run: its heading and its zero totals are written, the average
    panics, and the modules behind it in the catalog are not visited. *)
Theorem empty_module_ends_statistics (catalog : list string) (dbpath : string)
    (version idx : Z) (m : string) (rest : list string) (t : MutableTree)
    (w w1 : World) :
  ReadTree dbpath version (list_byte_of_string ("s/k:" ++ m ++ "/")) w
    = (w1, Done (Some t, None)) ->
  entries (loaded t) = [] ->
  for_range_from idx (m :: rest) (PrintStatistics_body catalog dbpath version) w
  = (emit (lines ["iterating over " ++ m ++ "  (" ++ fmt_d (idx + 1) ++ "/"
                    ++ fmt_d (len catalog) ++ ")";
                  "tree size:0 height:" ++ fmt_d (Height t);
                  "Printing all keys with hashed values (to detect diff)";
                  "0 keys, keySizeTotal: 0, valueSizeTotal: 0"]) w1,
     Panic "runtime error: integer divide by zero").
Proof.
  intros Hread Hempty. cbn [for_range_from].
  unfold PrintStatistics_body, bind at 1. rewrite module_prefix.
  rewrite (bind_done _ _ _ _ _ Hread). cbn iota beta.
  unfold bind at 1. rewrite Printf_emit. unfold deref. rewrite bind_ret.
  unfold bind at 1. rewrite Printf_emit.
  unfold bind at 1. rewrite (PrintKeysWithValueSize_empty t _ Hempty).
  rewrite !emit_emit. f_equal. f_equal.
  unfold Size. rewrite Hempty. text_eq.
Qed.

(** X23.  A module whose tree is read and has pairs (the counters inside
    [int64]): its heading with its place in the catalog, the size and the
    height of the tree, the report of the statistics and an empty line are
    written, and the run goes on with the next module. *)
Theorem loaded_module_is_reported (catalog : list string) (dbpath : string)
    (version idx : Z) (m : string) (rest : list string) (t : MutableTree)
    (w w1 : World) :
  ReadTree dbpath version (list_byte_of_string ("s/k:" ++ m ++ "/")) w
    = (w1, Done (Some t, None)) ->
  entries (loaded t) <> [] ->
  sizes_fit t ->
  exists report,
    PrintKeysWithValueSize (Some t) empty_world = (emit report empty_world, Done tt)
    /\ for_range_from idx (m :: rest) (PrintStatistics_body catalog dbpath version) w
       = for_range_from (idx + 1) rest (PrintStatistics_body catalog dbpath version)
           (emit (lines ["iterating over " ++ m ++ "  (" ++ fmt_d (idx + 1) ++ "/"
                           ++ fmt_d (len catalog) ++ ")";
                         "tree size:" ++ fmt_d (Size t) ++ " height:"
                           ++ fmt_d (Height t)]
                  ++ report ++ lines [""]) w1).
Proof.
  intros Hread Hne Hfit. eexists. split.
  - now apply PrintKeysWithValueSize_run.
  - cbn [for_range_from]. unfold PrintStatistics_body, bind at 1.
    rewrite module_prefix.
    rewrite (bind_done _ _ _ _ _ Hread). cbn iota beta.
    unfold bind at 1. rewrite Printf_emit. unfold deref. rewrite bind_ret.
    unfold bind at 1. rewrite Printf_emit.
    unfold bind at 1. rewrite (PrintKeysWithValueSize_run t _ Hne Hfit).
    unfold Println, write_stdout. fold (emit (Sprintln [AString ""])).
    rewrite !emit_emit. f_equal. f_equal. text_eq.
Qed.

End Modules.

(** X24.  With the counters inside [int64], the report of the statistics
    ends normally exactly when the snapshot has a pair. *)
Theorem report_completes_iff_not_empty (t : MutableTree) (w : World) :
  sizes_fit t ->
  (snd (PrintKeysWithValueSize (Some t) w) = Done tt <-> entries (loaded t) <> []).
Proof.
  intros Hfit. split.
  - intros H Hempty. rewrite (PrintKeysWithValueSize_empty t w Hempty) in H.
    discriminate H.
  - intros Hne. now rewrite (PrintKeysWithValueSize_run t w Hne Hfit).
Qed.

Lemma empty_module_ends_statistics_witness :
  for_range_from 12 ("gov" :: ["cronos"; "ibc"])
    (PrintStatistics_body (X := fixture) modules "/data/application.db" 1) empty_world
  = (emit (lines ["iterating over " ++ "gov" ++ "  (" ++ fmt_d (12 + 1) ++ "/"
                    ++ fmt_d (len modules) ++ ")";
                  "tree size:0 height:"
                    ++ fmt_d (Height (mkTree (versions gov_tree) empty_snapshot));
                  "Printing all keys with hashed values (to detect diff)";
                  "0 keys, keySizeTotal: 0, valueSizeTotal: 0"])
       (mkWorld (lines ["Got version: 1"]) "" [("application", "/data")]),
     Panic "runtime error: integer divide by zero").
Proof.
  apply (empty_module_ends_statistics (X := fixture) modules "/data/application.db"
           1 12 "gov" ["cronos"; "ibc"]
           (mkTree (versions gov_tree) empty_snapshot) empty_world
           (mkWorld (lines ["Got version: 1"]) "" [("application", "/data")])).
  - reflexivity.
  - reflexivity.
Defined.

Lemma loaded_module_is_reported_witness :
  exists report,
    PrintKeysWithValueSize (Some (mkTree (versions bank_tree) bank_v2)) empty_world
    = (emit report empty_world, Done tt)
    /\ for_range_from 15 ("bank" :: ["mint"; "acc"; "evm"])
         (PrintStatistics_body (X := fixture) modules "/data/application.db" 0)
         empty_world
       = for_range_from (15 + 1) ["mint"; "acc"; "evm"]
           (PrintStatistics_body (X := fixture) modules "/data/application.db" 0)
           (emit (lines ["iterating over " ++ "bank" ++ "  (" ++ fmt_d (15 + 1) ++ "/"
                           ++ fmt_d (len modules) ++ ")";
                         "tree size:"
                           ++ fmt_d (Size (mkTree (versions bank_tree) bank_v2))
                           ++ " height:"
                           ++ fmt_d (Height (mkTree (versions bank_tree) bank_v2))]
                  ++ report ++ lines [""])
              (mkWorld (lines ["Got version: 2"]) "" [("application", "/data")])).
Proof.
  apply (loaded_module_is_reported (X := fixture) modules "/data/application.db"
           0 15 "bank" ["mint"; "acc"; "evm"]
           (mkTree (versions bank_tree) bank_v2) empty_world
           (mkWorld (lines ["Got version: 2"]) "" [("application", "/data")])).
  - reflexivity.
  - discriminate.
  - apply sizes_fit_compute. reflexivity.
Defined.

Lemma report_completes_iff_not_empty_witness :
  snd (PrintKeysWithValueSize (Some (mkTree [] bank_v2)) empty_world) = Done tt
  <-> entries (loaded (mkTree [] bank_v2)) <> [].
Proof.
  apply (report_completes_iff_not_empty (mkTree [] bank_v2) empty_world).
  apply sizes_fit_compute. reflexivity.
Defined.

(** X25.  The whole report of the statistics over a snapshot that has pairs
    (the counters inside [int64]): the heading, the text of the traversal,
    the line of the totals with the number of pairs and the sums of the key
    and value lengths, the averages, the maxima; standard error is left
    alone. *)
Theorem statistics_report (t : MutableTree) (w : World) :
  entries (loaded t) <> [] ->
  sizes_fit t ->
  PrintKeysWithValueSize (Some t) w
  = (emit (lines ["Printing all keys with hashed values (to detect diff)"]
           ++ traversal_text (Size t) 0 (entries (loaded t))
           ++ lines [fmt_d (Size t) ++ " keys, keySizeTotal: "
                       ++ fmt_d (sum_Z (key_lengths t)) ++ ", valueSizeTotal: "
                       ++ fmt_d (sum_Z (value_lengths t));
                     "avg key size:" ++ fmt_d (sum_Z (key_lengths t) / Size t)
                       ++ ", avg value size:"
                       ++ fmt_d (sum_Z (value_lengths t) / Size t);
                     "max key size:" ++ fmt_d (max_from 0 (key_lengths t))
                       ++ ", max value size:"
                       ++ fmt_d (max_from 0 (value_lengths t))]) w,
     Done tt).
Proof.
  intros Hne Hfit. rewrite (PrintKeysWithValueSize_run t w Hne Hfit).
  f_equal. f_equal. unfold header, totals_line.
  change (Sprintln [AString "Printing all keys with hashed values (to detect diff)"])
    with (lines ["Printing all keys with hashed values (to detect diff)"]).
  do 2 f_equal. text_eq.
Qed.

Lemma statistics_report_witness :
  PrintKeysWithValueSize (Some (mkTree [] bank_v2)) empty_world
  = (emit (lines ["Printing all keys with hashed values (to detect diff)"]
           ++ traversal_text 2 0 (entries bank_v2)
           ++ lines [fmt_d 2 ++ " keys, keySizeTotal: "
                       ++ fmt_d (sum_Z (key_lengths (mkTree [] bank_v2)))
                       ++ ", valueSizeTotal: "
                       ++ fmt_d (sum_Z (value_lengths (mkTree [] bank_v2)));
                     "avg key size:"
                       ++ fmt_d (sum_Z (key_lengths (mkTree [] bank_v2)) / 2)
                       ++ ", avg value size:"
                       ++ fmt_d (sum_Z (value_lengths (mkTree [] bank_v2)) / 2);
                     "max key size:"
                       ++ fmt_d (max_from 0 (key_lengths (mkTree [] bank_v2)))
                       ++ ", max value size:"
                       ++ fmt_d (max_from 0 (value_lengths (mkTree [] bank_v2)))])
       empty_world,
     Done tt).
Proof.
  apply (statistics_report (mkTree [] bank_v2) empty_world).
  - discriminate.
  - apply sizes_fit_compute. reflexivity.
Defined.
